(** * Wallet3/public_configs: the RPC catalog refresh scripts

    A shallow embedding of [src/update.ts] (fetch, extract, filter, probe,
    publish) and of its sibling script [src/unnamed/part_000] (the same
    pipeline without the probing stage), with the properties of the
    synchronisation-and-validation pipeline stated over it.

    Conventions of the embedding.
    - A JavaScript string is a [string]; one [ascii] stands for one code
      unit below 256.
    - A JavaScript value is a [JsValue]: plain data only (no functions,
      accessors or proxies), whose property names are ordinary names
      ([__proto__], the accessor of [Object.prototype], is not one).
    - A computation that can throw returns an [option]; [None] is the
      exception, which [main]'s outer handler turns into exit status 1.
    - A loop that need not terminate carries fuel and returns [None] when
      it runs out.
    - A JavaScript object used as a map is its list of own properties in
      the order of their creation; [Object.entries] and [JSON.stringify]
      list them as the language does, the array indices first and in
      ascending order ([EnumerableOwnProperties]).
    - A number is an integral double that the model holds exactly, [NaN]
      or an infinity; where a computation leaves these numbers the model
      says so by returning [None].
    - [fs.writeFileSync] replaces the file or throws with the file left as
      it was; which of the two is given by the [Disk] the run is on.  The
      properties of the pipeline are stated for [main], the run on a disk
      that takes both writes; [main_on] is the run on any disk. *)

From Stdlib Require Import ZArith String Ascii List Bool Lia Sorted.
From stdpp Require Import base option list strings.
Import ListNotations.

#[local] Set Warnings "-register-all".
Local Open Scope string_scope.
Local Open Scope list_scope.

(** ** JavaScript values and the built-ins the scripts use *)

Module JS.

(** Numbers: [Int z] is an integral double, exact while [|z| <= 2^53].
    Non-integral numbers are not represented. *)
Inductive number :=
| NaN
| Infinity (negative : bool)
| Int (z : Z).

Inductive JsValue :=
| JUndefined
| JNull
| JBoolean (b : bool)
| JNumber (n : number)
| JString (s : string)
| JArray (elements : list JsValue)
| JObject (properties : list (string * JsValue)).

(** [ToBoolean]: what [if (v)], [!v], [v && _] and [v || _] test. *)
Definition ToBoolean (v : JsValue) : bool :=
  match v with
  | JUndefined | JNull => false
  | JBoolean b => b
  | JNumber NaN => false
  | JNumber (Infinity _) => true
  | JNumber (Int z) => negb (z =? 0)%Z
  | JString s => negb (s =? "")
  | JArray _ | JObject _ => true
  end.

(** Own property lookup in a property list. *)
Fixpoint lookup_property {A} (key : string) (properties : list (string * A)) : option A :=
  match properties with
  | [] => None
  | (k, v) :: rest => if k =? key then Some v else lookup_property key rest
  end.

(** [v.key] for a key that is neither an array index, nor [length], nor a
    name defined on a built-in prototype ([rpcs], [url], [tracking],
    [result]): a [TypeError] on [null] and [undefined], the own property
    of an object, [undefined] everywhere else. *)
Definition Get (v : JsValue) (key : string) : option JsValue :=
  match v with
  | JUndefined | JNull => None
  | JObject properties => Some (default JUndefined (lookup_property key properties))
  | _ => Some JUndefined
  end.

(** [typeof v === "object" && v !== null && key in v], same keys as [Get]. *)
Definition object_with (key : string) (v : JsValue) : bool :=
  match v with
  | JObject properties => bool_decide (is_Some (lookup_property key properties))
  | _ => false
  end.

(** [v === s] for a string literal [s]. *)
Definition strict_equals_string (v : JsValue) (s : string) : bool :=
  match v with
  | JString s' => s' =? s
  | _ => false
  end.

(** [String.prototype.startsWith]. *)
Definition startsWith (s search : string) : bool := String.prefix search s.

(** The decimal numeral of a natural number, most significant digit
    first; [S (log2 n)] digits are enough. *)
Definition digit_char (d : N) : ascii := ascii_of_N (48 + d).

Fixpoint digits_of (fuel : nat) (n : N) (acc : list ascii) : list ascii :=
  match fuel with
  | 0 => acc
  | S fuel' =>
      let acc' := digit_char (n mod 10) :: acc in
      if (n <? 10)%N then acc' else digits_of fuel' (n / 10) acc'
  end.

Definition decimal (n : N) : string :=
  string_of_list_ascii (digits_of (S (N.to_nat (N.log2 n))) n []).

(** [ToString] of an array index. *)
Definition index_to_string (i : nat) : string := decimal (N.of_nat i).

Fixpoint indexed {A} (i : nat) (l : list A) : list (string * A) :=
  match l with
  | [] => []
  | x :: rest => (index_to_string i, x) :: indexed (S i) rest
  end.

Fixpoint characters (s : string) : list JsValue :=
  match s with
  | EmptyString => []
  | String c rest => JString (String c EmptyString) :: characters rest
  end.

(** [o[key] = v] on an object created by [{}]: the property is replaced
    in place or appended. *)
Fixpoint set_property {A} (o : list (string * A)) (key : string) (v : A)
  : list (string * A) :=
  match o with
  | [] => [(key, v)]
  | (k, v') :: rest =>
      if k =? key then (k, v) :: rest else (k, v') :: set_property rest key v
  end.

(** *** Regular expressions

    The fragment of ECMAScript patterns the scripts use, matched the way
    the language defines it: a backtracking matcher in continuation
    style over the text that is left, with the character before the
    current position kept for [^]. *)

Definition is_line_terminator (c : ascii) : bool :=
  match nat_of_ascii c with
  | 10 | 13 => true
  | _ => false
  end.

(** [\s] *)
Definition is_white_space (c : ascii) : bool :=
  match nat_of_ascii c with
  | 9 | 10 | 11 | 12 | 13 | 32 | 160 => true
  | _ => false
  end.

Inductive regex :=
| Empty
| Class (p : ascii -> bool)
| Cat (r1 r2 : regex)
| Star (greedy : bool) (r : regex)
| Optional (r : regex)
| LineStart
| LineEnd.

Definition Char (c : ascii) : regex := Class (Ascii.eqb c).
(** [.] *)
Definition Dot : regex := Class (fun c => negb (is_line_terminator c)).
Definition Space : regex := Class is_white_space.
Definition Plus (r : regex) : regex := Cat r (Star true r).

Fixpoint Literal (s : string) : regex :=
  match s with
  | EmptyString => Empty
  | String c rest => Cat (Char c) (Literal rest)
  end.

Fixpoint Sequence (rs : list regex) : regex :=
  match rs with
  | [] => Empty
  | r :: rest => Cat r (Sequence rest)
  end.

(** [^] and [$] under the [m] flag. *)
Definition at_line_start (prev : option ascii) : bool :=
  match prev with
  | None => true
  | Some c => is_line_terminator c
  end.

Definition at_line_end (s : list ascii) : bool :=
  match s with
  | [] => true
  | c :: _ => is_line_terminator c
  end.

(** A matcher takes the character before the current position, the text
    left and a continuation; the first alternative whose continuation
    succeeds wins. *)
Definition matcher (R : Type) : Type :=
  option ascii -> list ascii -> (option ascii -> list ascii -> option R) -> option R.

(** [m*] and [m*?], then [k]: a greedy quantifier tries one more iteration
    first, a lazy one tries [k] first.  An iteration that consumes nothing
    is rejected, so [length s] iterations are all a quantifier can make:
    that is the fuel. *)
Fixpoint iterate {R} (m : matcher R) (greedy : bool)
    (k : option ascii -> list ascii -> option R)
    (fuel : nat) (prev : option ascii) (s : list ascii) : option R :=
  match fuel with
  | 0 => k prev s
  | S fuel' =>
      let again (_ : unit) :=
        m prev s (fun prev' s' =>
          if (List.length s' <? List.length s)%nat
          then iterate m greedy k fuel' prev' s' else None) in
      if greedy then
        match again tt with
        | Some x => Some x
        | None => k prev s
        end
      else
        match k prev s with
        | Some x => Some x
        | None => again tt
        end
  end.

(** [rmatch r prev s k]: match [r] at the head of [s], then hand the
    position reached to the continuation [k]. *)
Fixpoint rmatch {R} (r : regex) : matcher R :=
  fun prev s k =>
  match r with
  | Empty => k prev s
  | Class p =>
      match s with
      | c :: s' => if p c then k (Some c) s' else None
      | [] => None
      end
  | Cat r1 r2 => rmatch r1 prev s (fun prev' s' => rmatch r2 prev' s' k)
  | Star greedy r1 => iterate (rmatch r1) greedy k (List.length s) prev s
  | Optional r1 =>
      match rmatch r1 prev s (fun prev' s' =>
              if (List.length s' <? List.length s)%nat then k prev' s' else None) with
      | Some x => Some x
      | None => k prev s
      end
  | LineStart => if at_line_start prev then k prev s else None
  | LineEnd => if at_line_end s then k prev s else None
  end.

(** The match of [r] that starts at the head of [s], if any: the
    character before the end of the match and the text after it. *)
Definition match_here (r : regex) (prev : option ascii) (s : list ascii)
  : option (option ascii * list ascii) :=
  rmatch r prev s (fun prev' s' => Some (prev', s')).

(** Two notions for reasoning about matchers.  A matcher is consuming
    when a match uses up a prefix of the text and then runs its
    continuation. *)
Definition consuming {R} (m : matcher R) : Prop :=
  ∀ prev s k x, m prev s k = Some x →
    ∃ w prev' s', s = w ++ s' ∧ k prev' s' = Some x.

(** The continuation [k] succeeds on [s], whatever the character before,
    with a result in [Q]. *)
Definition accepts {R} (k : option ascii -> list ascii -> option R) (s : list ascii)
    (Q : R -> Prop) : Prop :=
  ∀ prev, ∃ x, k prev s = Some x ∧ Q x.

(** [text.replace(r, "")] for a pattern with the [g] flag: the leftmost
    match is deleted and the search resumes behind it; after an empty
    match it resumes one character further. *)
Fixpoint delete_matches (fuel : nat) (r : regex) (prev : option ascii) (s : list ascii)
  : list ascii :=
  match fuel with
  | 0 => s
  | S fuel' =>
      let step :=
        match s with
        | [] => []
        | c :: rest => c :: delete_matches fuel' r (Some c) rest
        end in
      match match_here r prev s with
      | Some (prev', s') =>
          if (List.length s' <? List.length s)%nat then delete_matches fuel' r prev' s' else step
      | None => step
      end
  end.

Definition replace_all (r : regex) (text : string) : string :=
  let s := list_ascii_of_string text in
  string_of_list_ascii (delete_matches (S (List.length s)) r None s).

(** *** Numbers as text

    [Number(text)] ([StringToNumber]) and the [ToString] of a number.
    [Number] returns [None] where the text denotes a number this model
    does not represent: a literal with a fraction or an exponent, or an
    integer above [2^53]. *)

Fixpoint trim_start (s : list ascii) : list ascii :=
  match s with
  | c :: rest => if is_white_space c then trim_start rest else s
  | [] => []
  end.

Definition trim (s : list ascii) : list ascii :=
  rev (trim_start (rev (trim_start s))).

Definition digit_value (base : N) (c : ascii) : option N :=
  let n := N_of_ascii c in
  let d := if (48 <=? n)%N && (n <=? 57)%N then Some (n - 48)%N
           else if (97 <=? n)%N && (n <=? 102)%N then Some (n - 87)%N
           else if (65 <=? n)%N && (n <=? 70)%N then Some (n - 55)%N
           else None in
  d ≫= (fun d => if (d <? base)%N then Some d else None).

Definition is_digit (c : ascii) : bool := bool_decide (is_Some (digit_value 10 c)).

Fixpoint digits_value (base acc : N) (s : list ascii) : option N :=
  match s with
  | [] => Some acc
  | c :: rest => d ← digit_value base c; digits_value base (acc * base + d)%N rest
  end.

Fixpoint span_digits (s : list ascii) : list ascii * list ascii :=
  match s with
  | c :: rest =>
      if is_digit c then let (ds, tail) := span_digits rest in (c :: ds, tail)
      else ([], s)
  | [] => ([], [])
  end.

Definition nonempty {A} (l : list A) : bool :=
  match l with [] => false | _ => true end.

(** Nothing, or an exponent part [e], [E] with an optional sign and digits. *)
Definition exponent_part_opt (s : list ascii) : bool :=
  match s with
  | [] => true
  | e :: rest =>
      (Ascii.eqb e "e" || Ascii.eqb e "E") &&
      let digits :=
        match rest with
        | sign :: rest' => if Ascii.eqb sign "+" || Ascii.eqb sign "-" then rest' else rest
        | [] => []
        end in
      nonempty digits && forallb is_digit digits
  end.

Inductive numeric_literal :=
| NotNumeric
| NotRepresented
| Magnitude (n : N).

(** [StrUnsignedDecimalLiteral] without [Infinity]. *)
Definition unsigned_decimal (s : list ascii) : numeric_literal :=
  let (int, rest) := span_digits s in
  match rest with
  | [] => match int with
          | [] => NotNumeric
          | _ => from_option Magnitude NotNumeric (digits_value 10 0 int)
          end
  | c :: rest' =>
      if Ascii.eqb c "." then
        let (frac, tail) := span_digits rest' in
        if (nonempty int || nonempty frac) && exponent_part_opt tail
        then NotRepresented else NotNumeric
      else if nonempty int && exponent_part_opt rest then NotRepresented else NotNumeric
  end.

(** [0x], [0o], [0b] literals. *)
Definition non_decimal (s : list ascii) : option numeric_literal :=
  match s with
  | zero :: letter :: digits =>
      if Ascii.eqb zero "0" then
        let literal (base : N) :=
          Some (match digits with
                | [] => NotNumeric
                | _ => from_option Magnitude NotNumeric (digits_value base 0 digits)
                end) in
        if Ascii.eqb letter "x" || Ascii.eqb letter "X" then literal 16%N
        else if Ascii.eqb letter "o" || Ascii.eqb letter "O" then literal 8%N
        else if Ascii.eqb letter "b" || Ascii.eqb letter "B" then literal 2%N
        else None
      else None
  | _ => None
  end.

Definition max_exact : Z := 2 ^ 53.

Definition signed (negative : bool) (l : numeric_literal) : option number :=
  match l with
  | NotNumeric => Some NaN
  | NotRepresented => None
  | Magnitude n =>
      if (Z.of_N n <=? max_exact)%Z
      then Some (Int (if negative then - Z.of_N n else Z.of_N n))
      else None
  end.

Definition Number (text : string) : option number :=
  let s := trim (list_ascii_of_string text) in
  match s with
  | [] => Some (Int 0)
  | c :: rest =>
      match non_decimal s with
      | Some l => signed false l
      | None =>
          let negative := Ascii.eqb c "-" in
          let body := if negative || Ascii.eqb c "+" then rest else s in
          if string_of_list_ascii body =? "Infinity" then Some (Infinity negative)
          else signed negative (unsigned_decimal body)
      end
  end.

(** [`${n}`] *)
Definition ToString (n : number) : string :=
  match n with
  | NaN => "NaN"
  | Infinity false => "Infinity"
  | Infinity true => "-Infinity"
  | Int z => (if (z <? 0)%Z then "-" else "") ++ decimal (Z.abs_N z)
  end.

(** [n + 1] in double arithmetic.  Below [2^53] the sum is exact.  At
    [2^53] the exact sum lies halfway between the doubles [2^53] and
    [2^53 + 2] and is rounded to the even one, [2^53] itself.  [None] for
    an integer the model does not hold. *)
Definition add_one (n : number) : option number :=
  match n with
  | Int z =>
      if (z =? max_exact)%Z then Some (Int max_exact)
      else if (- max_exact <=? z)%Z && (z <? max_exact)%Z then Some (Int (z + 1))
      else None
  | _ => Some n
  end.

(** *** The order of own properties

    [Object.entries] and [JSON.stringify] list the own properties of an
    ordinary object with the array indices first, in ascending numeric
    order, and the other names behind them in the order of their creation
    ([OrdinaryOwnPropertyKeys]). *)

(** An array index: the canonical numeral of an integer from 0 to
    [2^32 - 2]. *)
Definition array_index (key : string) : option N :=
  n ← digits_value 10 0 (list_ascii_of_string key);
  if (n <=? 4294967294)%N && (decimal n =? key) then Some n else None.

(** [k1] is listed before [k2] when both are created in that order. *)
Definition key_le (k1 k2 : string) : bool :=
  match array_index k1, array_index k2 with
  | Some i, Some j => (i <=? j)%N
  | Some _, None => true
  | None, Some _ => false
  | None, None => true
  end.

Fixpoint insert_property {A} (entry : string * A) (listed : list (string * A))
  : list (string * A) :=
  match listed with
  | [] => [entry]
  | e :: rest =>
      if key_le (fst entry) (fst e) then entry :: listed
      else e :: insert_property entry rest
  end.

(** The properties of an object, given in the order of their creation, in
    the order in which they are listed. *)
Definition EnumerableOwnProperties {A} (created : list (string * A)) : list (string * A) :=
  foldr insert_property [] created.

(** [Object.entries(v)]: a [TypeError] on [null] and [undefined]; the
    own enumerable properties otherwise. *)
Definition Object_entries (v : JsValue) : option (list (string * JsValue)) :=
  match v with
  | JUndefined | JNull => None
  | JBoolean _ | JNumber _ => Some []
  | JString s => Some (EnumerableOwnProperties (indexed 0 (characters s)))
  | JArray elements => Some (EnumerableOwnProperties (indexed 0 elements))
  | JObject properties => Some (EnumerableOwnProperties properties)
  end.

End JS.
Import JS.

(** ** The world outside the scripts *)

Module Host.

(** What [await fetch(...)] followed by reading the body gives: the
    promise rejects (transport failure, or the abort the timeout
    triggers), or a response arrives with a status and a body; the body
    is [None] when reading it ([text()], [json()]) rejects. *)
Inductive FetchOutcome (B : Type) :=
| Rejected
| Responded (status : nat) (body : option B).
Arguments Rejected {B}.
Arguments Responded {B} status body.

(** [response.ok] *)
Definition ok (status : nat) : bool := (200 <=? status)%nat && (status <=? 299)%nat.

(** The file [providers_version]: missing, present but failing to be
    read, or holding a text. *)
Inductive VersionFile :=
| Absent
| Unreadable
| Holds (text : string).

(** The file [rpc_providers.json] is represented by the mapping whose
    [JSON.stringify(_, null, 2)] it holds; [None] when it is missing. *)
Record Files := {
  rpc_providers_json : option (list (string * list string));
  providers_version : VersionFile
}.

(** One run's surroundings.  [probe chainId n url] is what the network
    does with the [n]-th request (from 0) that the validation of network
    [chainId] issues, sent to [url]: each request of a run has its own,
    independent outcome. *)
Record World := {
  upstream : FetchOutcome string;
  probe : string -> nat -> string -> FetchOutcome JsValue;
  files : Files
}.

(** What the two [fs.writeFileSync] calls of a run come to: [true] when
    the file is replaced, [false] when the call throws, the file being
    left as it was (it cannot be opened for writing: permissions, a
    directory of that name, a read-only file system). *)
Record Disk := {
  writes_rpc_providers_json : bool;
  writes_providers_version : bool
}.

(** The disk that takes both writes. *)
Definition writable : Disk :=
  {| writes_rpc_providers_json := true; writes_providers_version := true |}.

(** [new Function(body)()]: the engine runs the text [body] as a function
    body on the current files; it returns a value or throws ([None]),
    and leaves the files as the text it ran made them.  A text that ends
    the process or never returns is outside the model. *)
Definition Engine : Type := string -> Files -> option JsValue * Files.

End Host.
Import Host.

(** The four patterns both scripts pass to [content.replace(_, "")]. *)
Module Patterns.

(** [/^import\s+.*?from\s+.*?;?\s*$/gm] *)
Definition import_statement : regex :=
  Sequence [LineStart; Literal "import"; Plus Space; Star false Dot; Literal "from";
            Plus Space; Star false Dot; Optional (Char ";"); Star true Space; LineEnd].

(** [/^export\s+default\s+.*?;?\s*$/gm] *)
Definition export_default : regex :=
  Sequence [LineStart; Literal "export"; Plus Space; Literal "default"; Plus Space;
            Star false Dot; Optional (Char ";"); Star true Space; LineEnd].

(** [/^export\s+/gm] *)
Definition export_keyword : regex :=
  Sequence [LineStart; Literal "export"; Plus Space].

(** [/const\s+allExtraRpcs\s*=\s*mergeDeep\([^)]*\)\s*;?/g] *)
Definition mergeDeep_call : regex :=
  Sequence [Literal "const"; Plus Space; Literal "allExtraRpcs"; Star true Space;
            Char "="; Star true Space; Literal "mergeDeep(";
            Star true (Class (fun c => negb (Ascii.eqb c ")"))); Char ")";
            Star true Space; Optional (Char ";")].

Definition newline : string := String "010" EmptyString.

End Patterns.
Import Patterns.

(** ** [src/update.ts] *)

Module Update.

(** *** [checkRpcUrl], lines 26-62 *)

(** The [try] block, given what the request to [url] comes to; [None]
    when it throws. *)
Definition checkRpcUrl_try (fetch : string -> FetchOutcome JsValue) (url : string)
  : option bool :=
  match fetch url with
  | Rejected => None
  | Responded status body =>
      if negb (ok status) then Some false
      else
        data ← body;
        result ← Get data "result";
        Some (ToBoolean result
              && match result with
                 | JString s => startsWith s "0x"
                 | _ => false
                 end)
  end.

(** [catch (error) { return false; }] *)
Definition checkRpcUrl (fetch : string -> FetchOutcome JsValue) (url : string) : bool :=
  default false (checkRpcUrl_try fetch url).

(** *** [checkRpcUrls], lines 67-94 *)

(** [urls.slice(i, j)] *)
Definition slice {A} (l : list A) (i j : nat) : list A := take (j - i) (drop i l).

(** [for (let i = 0; i < urls.length; i += concurrency) chunks.push(...)] *)
Fixpoint make_chunks (fuel : nat) (urls : list string) (concurrency i : nat)
    (chunks : list (list string)) : option (list (list string)) :=
  if (i <? List.length urls)%nat then
    match fuel with
    | 0 => None
    | S fuel' =>
        make_chunks fuel' urls concurrency (i + concurrency)
          (chunks ++ [slice urls i (i + concurrency)])
    end
  else Some chunks.

(** [await Promise.all(chunk.map(async (url) => ...))]: the requests of a
    chunk are issued in the chunk's order and the results come back in
    that order, whichever request completes first.  [calls] counts the
    requests issued before this chunk. *)
Definition probe_chunk (fetch : nat -> string -> FetchOutcome JsValue) (calls : nat)
    (chunk : list string) : list (string * bool) :=
  imap (fun j url => (url, checkRpcUrl (fetch (calls + j)) url)) chunk.

(** [for (const { url, isValid } of results) if (isValid) validUrls.push(url)] *)
Fixpoint collect_valid (results : list (string * bool)) (validUrls : list string)
  : list string :=
  match results with
  | [] => validUrls
  | (url, isValid) :: rest =>
      collect_valid rest (if isValid then validUrls ++ [url] else validUrls)
  end.

(** [for (const chunk of chunks)] *)
Fixpoint check_chunks (fetch : nat -> string -> FetchOutcome JsValue) (calls : nat)
    (chunks : list (list string)) (validUrls : list string) : list string :=
  match chunks with
  | [] => validUrls
  | chunk :: rest =>
      let results := probe_chunk fetch calls chunk in
      check_chunks fetch (calls + List.length chunk) rest (collect_valid results validUrls)
  end.

(** [None]: the chunking loop does not terminate. *)
Definition checkRpcUrls (fetch : nat -> string -> FetchOutcome JsValue)
    (urls : list string) (concurrency : nat) : option (list string) :=
  chunks ← make_chunks (List.length urls) urls concurrency 0 [];
  Some (check_chunks fetch 0 chunks []).

(** *** [main], lines 96-239 *)

(** Lines 111-126: the text handed to [new Function]. *)
Definition function_body (content : string) : string :=
  let content := replace_all import_statement content in
  let content := replace_all export_default content in
  let content := replace_all export_keyword content in
  let content := replace_all mergeDeep_call content in
  content ++ newline ++ "return extraRpcs;".

(** Lines 144-167, the body of [for (const rpc of rpcs)]: the value of
    the local [url] once the two branches have run. *)
Definition select_url (chainId : string) (rpc : JsValue) : option JsValue :=
  match rpc with
  | JString _ => Some rpc
  | _ =>
      if object_with "url" rpc then
        if chainId =? "1" then
          tracking ← Get rpc "tracking";
          if strict_equals_string tracking "none" then Get rpc "url" else Some JNull
        else Get rpc "url"
      else Some JNull
  end.

(** [if (url && url.startsWith("https")) urls.push(url)]: calling
    [startsWith] on a truthy value that is not a string is a
    [TypeError]. *)
Definition push_if_https (urls : list string) (url : JsValue) : option (list string) :=
  if ToBoolean url then
    match url with
    | JString s => Some (if startsWith s "https" then urls ++ [s] else urls)
    | _ => None
    end
  else Some urls.

Fixpoint collect_urls (chainId : string) (rpcs : list JsValue) (urls : list string)
  : option (list string) :=
  match rpcs with
  | [] => Some urls
  | rpc :: rest =>
      url ← select_url chainId rpc;
      urls' ← push_if_https urls url;
      collect_urls chainId rest urls'
  end.

(** Lines 136-171, [for (const [chainId, config] of Object.entries(extraRpcs))]. *)
Fixpoint filter_entries (entries : list (string * JsValue))
    (result : list (string * list string)) : option (list (string * list string)) :=
  match entries with
  | [] => Some result
  | (chainId, config) :: rest =>
      rpcs ← Get config "rpcs";
      match rpcs with
      | JArray rpcs =>
          urls ← collect_urls chainId rpcs [];
          filter_entries rest (set_property result chainId urls)
      | _ => filter_entries rest result
      end
  end.

Definition filter_stage (extraRpcs : JsValue) : option (list (string * list string)) :=
  entries ← Object_entries extraRpcs;
  filter_entries entries [].

(** Lines 182-198, the body of
    [for (const [chainId, urls] of Object.entries(result))] run over the
    entries it is given; the counters kept for the progress messages are
    left out. *)
Fixpoint validate_entries (probe : string -> nat -> string -> FetchOutcome JsValue)
    (entries : list (string * list string)) (validatedResult : list (string * list string))
  : option (list (string * list string)) :=
  match entries with
  | [] => Some validatedResult
  | (chainId, urls) :: rest =>
      if (List.length urls =? 0)%nat then
        validate_entries probe rest (set_property validatedResult chainId [])
      else
        validUrlsForChain ← checkRpcUrls (probe chainId) urls 30;
        validate_entries probe rest (set_property validatedResult chainId validUrlsForChain)
  end.

Definition validate_stage (probe : string -> nat -> string -> FetchOutcome JsValue)
    (result : list (string * list string)) : option (list (string * list string)) :=
  validate_entries probe result [].

(** Lines 216-226: [currentVersion] after the read. *)
Definition read_version (file : VersionFile) : option number :=
  match file with
  | Absent => Some (Int 0)
  | Unreadable => Some (Int 0)
  | Holds text =>
      versionData ← Number text;
      Some (if ToBoolean (JNumber versionData) then versionData else Int 0)
  end.

(** Lines 215-232: the text written to [providers_version]; [None] where
    the counter leaves the numbers the model represents. *)
Definition update_version (file : VersionFile) : option string :=
  currentVersion ← read_version file;
  newVersion ← add_one currentVersion;
  Some (ToString newVersion).

(** Lines 96-239, the whole run on the disk [disk]: the exit status and
    the files it leaves.  Every exception raised inside the [try] block,
    that of a write included, ends the run in the handler with exit
    status 1, whatever has been written before.  [None] where the model
    does not determine the run ([checkRpcUrls] or [update_version] is
    [None]). *)
Definition main_on (disk : Disk) (Function_call : Engine) (w : World)
  : option (Z * Files) :=
  match upstream w with
  | Rejected => Some (1%Z, files w)
  | Responded status body =>
      if negb (ok status) then Some (1%Z, files w)
      else
        match body with
        | None => Some (1%Z, files w)
        | Some content =>
            let (returned, fs) := Function_call (function_body content) (files w) in
            match returned ≫= filter_stage with
            | None => Some (1%Z, fs)
            | Some result =>
                validatedResult ←
                  validate_stage (probe w) (EnumerableOwnProperties result);
                if negb (writes_rpc_providers_json disk) then Some (1%Z, fs)
                else
                  let fs := {| rpc_providers_json :=
                                 Some (EnumerableOwnProperties validatedResult);
                               providers_version := providers_version fs |} in
                  newVersion ← update_version (providers_version fs);
                  if negb (writes_providers_version disk) then Some (1%Z, fs)
                  else Some (0%Z, {| rpc_providers_json := rpc_providers_json fs;
                                     providers_version := Holds newVersion |})
            end
        end
  end.

(** The run on a disk that takes both writes. *)
Definition main (Function_call : Engine) (w : World) : option (Z * Files) :=
  main_on writable Function_call w.

End Update.

(** ** [src/unnamed/part_000]: the script without the probing stage *)

Module Part000.

(** Lines 38-53. *)
Definition function_body (content : string) : string :=
  let content := replace_all import_statement content in
  let content := replace_all export_default content in
  let content := replace_all export_keyword content in
  let content := replace_all mergeDeep_call content in
  content ++ newline ++ "return extraRpcs;".

(** Lines 71-94, the body of [for (const rpc of rpcs)]. *)
Definition select_url (chainId : string) (rpc : JsValue) : option JsValue :=
  match rpc with
  | JString _ => Some rpc
  | _ =>
      if object_with "url" rpc then
        if chainId =? "1" then
          tracking ← Get rpc "tracking";
          if strict_equals_string tracking "none" then Get rpc "url" else Some JNull
        else Get rpc "url"
      else Some JNull
  end.

Definition push_if_https (urls : list string) (url : JsValue) : option (list string) :=
  if ToBoolean url then
    match url with
    | JString s => Some (if startsWith s "https" then urls ++ [s] else urls)
    | _ => None
    end
  else Some urls.

Fixpoint collect_urls (chainId : string) (rpcs : list JsValue) (urls : list string)
  : option (list string) :=
  match rpcs with
  | [] => Some urls
  | rpc :: rest =>
      url ← select_url chainId rpc;
      urls' ← push_if_https urls url;
      collect_urls chainId rest urls'
  end.

(** Lines 63-98. *)
Fixpoint filter_entries (entries : list (string * JsValue))
    (result : list (string * list string)) : option (list (string * list string)) :=
  match entries with
  | [] => Some result
  | (chainId, config) :: rest =>
      rpcs ← Get config "rpcs";
      match rpcs with
      | JArray rpcs =>
          urls ← collect_urls chainId rpcs [];
          filter_entries rest (set_property result chainId urls)
      | _ => filter_entries rest result
      end
  end.

Definition filter_stage (extraRpcs : JsValue) : option (list (string * list string)) :=
  entries ← Object_entries extraRpcs;
  filter_entries entries [].

(** Lines 111-128. *)
Definition read_version (file : VersionFile) : option number :=
  match file with
  | Absent => Some (Int 0)
  | Unreadable => Some (Int 0)
  | Holds text =>
      versionData ← Number text;
      Some (if ToBoolean (JNumber versionData) then versionData else Int 0)
  end.

Definition update_version (file : VersionFile) : option string :=
  currentVersion ← read_version file;
  newVersion ← add_one currentVersion;
  Some (ToString newVersion).

(** Lines 23-135, the whole run on the disk [disk]: [result] itself is
    written. *)
Definition main_on (disk : Disk) (Function_call : Engine) (w : World)
  : option (Z * Files) :=
  match upstream w with
  | Rejected => Some (1%Z, files w)
  | Responded status body =>
      if negb (ok status) then Some (1%Z, files w)
      else
        match body with
        | None => Some (1%Z, files w)
        | Some content =>
            let (returned, fs) := Function_call (function_body content) (files w) in
            match returned ≫= filter_stage with
            | None => Some (1%Z, fs)
            | Some result =>
                if negb (writes_rpc_providers_json disk) then Some (1%Z, fs)
                else
                  let fs := {| rpc_providers_json := Some (EnumerableOwnProperties result);
                               providers_version := providers_version fs |} in
                  newVersion ← update_version (providers_version fs);
                  if negb (writes_providers_version disk) then Some (1%Z, fs)
                  else Some (0%Z, {| rpc_providers_json := rpc_providers_json fs;
                                     providers_version := Holds newVersion |})
            end
        end
  end.

(** The run on a disk that takes both writes. *)
Definition main (Function_call : Engine) (w : World) : option (Z * Files) :=
  main_on writable Function_call w.

End Part000.

(** ** The properties' vocabulary

    Definitions that follow the specification's wording; the theorems
    below compare the scripts with them. *)

Module Spec.

(** Normalisation of a candidate entry: a bare string is a URL; an
    object must contain a [url] field that is a string. *)
Definition candidate_url (rpc : JsValue) : option string :=
  match rpc with
  | JString s => Some s
  | JObject properties =>
      match lookup_property "url" properties with
      | Some (JString s) => Some s
      | _ => None
      end
  | _ => None
  end.

(** The tracking attribute of a candidate; a bare string has none. *)
Definition tracking_of (rpc : JsValue) : option JsValue :=
  match rpc with
  | JObject properties => lookup_property "tracking" properties
  | _ => None
  end.

(** The candidates' URLs that begin with the literal [https]. *)
Definition https_subset (rpcs : list JsValue) : list string :=
  filter (fun u => Is_true (startsWith u "https")) (omap candidate_url rpcs).

(** A probe succeeds iff the response has a successful status and the
    decoded body contains a result field that is a string beginning
    with [0x]. *)
Definition probe_succeeds (r : FetchOutcome JsValue) : bool :=
  match r with
  | Responded status (Some (JObject properties)) =>
      ok status
      && match lookup_property "result" properties with
         | Some (JString s) => String.prefix "0x" s
         | _ => false
         end
  | _ => false
  end.

(** The URLs of [urls] whose probe succeeded, in their order; the probe
    of the URL at position [n] is request [n]. *)
Fixpoint passed_from (fetch : nat -> string -> FetchOutcome JsValue) (n : nat)
    (urls : list string) : list string :=
  match urls with
  | [] => []
  | u :: rest =>
      (if probe_succeeds (fetch n u) then [u] else []) ++ passed_from fetch (S n) rest
  end.

Definition passed (fetch : nat -> string -> FetchOutcome JsValue) (urls : list string)
  : list string :=
  passed_from fetch 0 urls.

(** The upstream fetch fails: transport failure or non-success status. *)
Definition fetch_failed (u : FetchOutcome string) : bool :=
  match u with
  | Rejected => true
  | Responded status _ => negb (ok status)
  end.

(** [extraRpcs] is the value the run extracts from the fetched document. *)
Definition extracted (Function_call : Engine) (w : World) (extraRpcs : JsValue) : Prop :=
  ∃ status content fs,
    upstream w = Responded status (Some content)
    ∧ Function_call (Update.function_body content) (files w) = (Some extraRpcs, fs).

(** [rpcs] is the candidate sequence of network [chainId] in [extraRpcs]. *)
Definition candidates_of (extraRpcs : JsValue) (chainId : string) (rpcs : list JsValue)
  : Prop :=
  ∃ entries config,
    Object_entries extraRpcs = Some entries
    ∧ In (chainId, config) entries
    ∧ Get config "rpcs" = Some (JArray rpcs).

(** The URL sequence the output catalog holds for [chainId]. *)
Definition output_urls (fs : Files) (chainId : string) : option (list string) :=
  catalog ← rpc_providers_json fs;
  lookup_property chainId catalog.

(** A network's value that is not a mapping containing a sequence field,
    [null] and [undefined] apart. *)
Definition without_sequence (config : JsValue) : bool :=
  match Get config "rpcs" with
  | Some (JArray _) => false
  | Some _ => true
  | None => false
  end.

(** A candidate that is neither a string nor an object with a [url]
    field, or whose [url] field holds a falsy value. *)
Definition without_url (rpc : JsValue) : bool :=
  match rpc with
  | JString _ => false
  | JObject properties =>
      match lookup_property "url" properties with
      | Some url => negb (ToBoolean url)
      | None => true
      end
  | _ => true
  end.

(** The world [w] with the nodes answering as [probe'] says. *)
Definition with_probe (w : World) (probe' : string -> nat -> string -> FetchOutcome JsValue)
  : World :=
  {| upstream := upstream w; probe := probe'; files := files w |}.

(** The exit status of a run and the version counter it leaves. *)
Definition status_and_version (run : option (Z * Files)) : option (Z * VersionFile) :=
  '(status, fs) ← run; Some (status, providers_version fs).

(** [needle] occurs in [text]. *)
Fixpoint starts_with (needle text : list ascii) : bool :=
  match needle, text with
  | [], _ => true
  | c :: needle', d :: text' => Ascii.eqb c d && starts_with needle' text'
  | _ :: _, [] => false
  end.

Fixpoint occurs_in (needle text : list ascii) : bool :=
  starts_with needle text
  || match text with
     | [] => false
     | _ :: rest => occurs_in needle rest
     end.

Definition occurs (needle text : string) : bool :=
  occurs_in (list_ascii_of_string needle) (list_ascii_of_string text).










(** The counter value written after [n]: the plain decimal numeral of
    [n + 1]. *)
Definition next_version (n : N) : string := decimal (n + 1).

(** An engine that returns [v] whatever the text, and touches no file. *)
Definition returning (v : JsValue) : Engine := fun _ fs => (Some v, fs).

End Spec.
Import Spec.

(** ** Documents and worlds to run the scripts on *)

Module Scenarios.

(** Network ["1"] with a bare string, an object tracked [none] and an
    object tracked [yes]. *)
Definition network_1 : JsValue :=
  JObject [("1", JObject [("rpcs", JArray
     [ JString "https://a.example";
       JObject [("url", JString "https://b.example"); ("tracking", JString "none")];
       JObject [("url", JString "https://c.example"); ("tracking", JString "yes")] ])])].

Definition network_137 : JsValue :=
  JObject [("137", JObject [("rpcs", JArray
     [ JString "https://x.example"; JString "http://y.example" ])])].

(** A network whose value is [null], next to a well-formed one. *)
Definition null_network : JsValue :=
  JObject [("5", JNull);
           ("137", JObject [("rpcs", JArray [JString "https://x.example"])])].

(** A candidate whose [url] is the number 5. *)
Definition numeric_url : JsValue :=
  JObject [("137", JObject [("rpcs", JArray
     [ JObject [("url", JNumber (Int 5))]; JString "https://x.example" ])])].

(** A network without [rpcs] and a candidate without [url], among
    well-formed ones. *)
Definition recoverable : list (string * JsValue) :=
  [("5", JString "soon");
   ("137", JObject [("rpcs", JArray
      [ JObject [("tracking", JString "none")]; JString "https://x.example" ])])].

(** A node that answers the probe, and one that does not. *)
Definition alive : FetchOutcome JsValue :=
  Responded 200 (Some (JObject [("jsonrpc", JString "2.0"); ("id", JNumber (Int 1));
                                ("result", JString "0x12a05f2")])).

Definition dead : FetchOutcome JsValue := Rejected.

(** The files an earlier run has left. *)
Definition earlier_files : Files :=
  {| rpc_providers_json := Some [("1", ["https://old.example"])];
     providers_version := Holds "7" |}.

(** The upstream serves [content]; every node is alive. *)
Definition serving (content : string) : World :=
  {| upstream := Responded 200 (Some content);
     probe := fun _ _ _ => alive;
     files := earlier_files |}.

(** No file has been written yet. *)
Definition fresh_files : Files :=
  {| rpc_providers_json := None; providers_version := Absent |}.

(** The world [w] with the files [fs] in place of its own. *)
Definition with_files (w : World) (fs : Files) : World :=
  {| upstream := upstream w; probe := probe w; files := fs |}.

(** The upstream answers with HTTP 500. *)
Definition upstream_down : World :=
  {| upstream := Responded 500 (Some "Internal Server Error");
     probe := fun _ _ _ => alive;
     files := earlier_files |}.



(** Every second node answers. *)
Definition every_second (n : nat) (url : string) : FetchOutcome JsValue :=
  if Nat.even n then alive else dead.

End Scenarios.

(** ** The rest of the scripts

    The declared shape of the document (the interfaces [RpcConfig] and
    [ExtraRpcs]), the counters [main] keeps for its progress messages, and
    the vocabulary of the properties that go with them. *)

Module Shape.

(** [src/update.ts] lines 8-17, an element of [RpcConfig.rpcs]: a string,
    or an object whose [url] is a string. *)
Definition rpc_well_typed (rpc : JsValue) : bool :=
  match rpc with
  | JString _ => true
  | JObject properties =>
      match lookup_property "url" properties with
      | Some (JString _) => true
      | _ => false
      end
  | _ => false
  end.

(** [RpcConfig]: an object whose [rpcs] is an array of such elements. *)
Definition config_well_typed (config : JsValue) : bool :=
  match config with
  | JObject properties =>
      match lookup_property "rpcs" properties with
      | Some (JArray rpcs) => forallb rpc_well_typed rpcs
      | _ => false
      end
  | _ => false
  end.

(** Lines 19-21, [ExtraRpcs]: every property holds an [RpcConfig]. *)
Definition document_well_typed (properties : list (string * JsValue)) : bool :=
  forallb (fun entry => config_well_typed (snd entry)) properties.

(** The array under [rpcs], if there is one. *)
Definition rpcs_of (config : JsValue) : list JsValue :=
  match Get config "rpcs" with
  | Some (JArray rpcs) => rpcs
  | _ => []
  end.

(** What a candidate contributes on network ["1"]: a bare string, or the
    string [url] of an object whose [tracking] is the string [none]. *)
Definition primary_url (rpc : JsValue) : option string :=
  match rpc with
  | JString s => Some s
  | JObject properties =>
      match lookup_property "tracking" properties with
      | Some (JString t) => if t =? "none" then candidate_url rpc else None
      | _ => None
      end
  | _ => None
  end.

Definition eligible_url (chainId : string) (rpc : JsValue) : option string :=
  if chainId =? "1" then primary_url rpc else candidate_url rpc.

(** The URLs the filter keeps for a network, in the candidates' order. *)
Definition eligible_urls (chainId : string) (rpcs : list JsValue) : list string :=
  filter (fun u => Is_true (startsWith u "https")) (omap (eligible_url chainId) rpcs).

(** The filtered mapping and the catalog of a document, network by
    network. *)
Definition filtered_mapping (properties : list (string * JsValue))
  : list (string * list string) :=
  map (fun entry => (fst entry, eligible_urls (fst entry) (rpcs_of (snd entry)))) properties.

Definition validated_mapping (probe : string -> nat -> string -> FetchOutcome JsValue)
    (result : list (string * list string)) : list (string * list string) :=
  map (fun entry => (fst entry, passed (probe (fst entry)) (snd entry))) result.

(** The keys are in the order in which an object lists its properties. *)
Definition in_listing_order (keys : list string) : Prop :=
  StronglySorted (fun k1 k2 => key_le k1 k2 = true) keys.

(** [k] successive version steps, each reading what the one before wrote. *)
Fixpoint version_after (k : nat) (file : VersionFile) : option VersionFile :=
  match k with
  | 0 => Some file
  | S k' => text ← Update.update_version file; version_after k' (Holds text)
  end.

End Shape.
Import Shape.

(** The counters of [src/update.ts] lines 177-198, threaded through the
    validation loop as [main] does. *)
Module Reporting.

Record Progress := {
  totalUrls : nat;
  validUrls : nat;
  processedChains : nat
}.

Definition start : Progress :=
  {| totalUrls := 0; validUrls := 0; processedChains := 0 |}.

Fixpoint validate_entries (probe : string -> nat -> string -> FetchOutcome JsValue)
    (entries : list (string * list string)) (validatedResult : list (string * list string))
    (progress : Progress) : option (list (string * list string) * Progress) :=
  match entries with
  | [] => Some (validatedResult, progress)
  | (chainId, urls) :: rest =>
      if (List.length urls =? 0)%nat then
        validate_entries probe rest (set_property validatedResult chainId []) progress
      else
        let counted :=
          {| totalUrls := totalUrls progress + List.length urls;
             validUrls := validUrls progress;
             processedChains := S (processedChains progress) |} in
        validUrlsForChain ← Update.checkRpcUrls (probe chainId) urls 30;
        validate_entries probe rest (set_property validatedResult chainId validUrlsForChain)
          {| totalUrls := totalUrls counted;
             validUrls := validUrls counted + List.length validUrlsForChain;
             processedChains := processedChains counted |}
  end.

(** The number of URLs in a mapping. *)
Definition url_count (mapping : list (string * list string)) : nat :=
  list_sum (map (fun entry => List.length (snd entry)) mapping).

(** The number of networks of a mapping that have a URL. *)
Definition nonempty_networks (mapping : list (string * list string)) : nat :=
  List.length (filter (fun entry => Is_true (negb (List.length (snd entry) =? 0)%nat)) mapping).

End Reporting.

(** More documents and worlds. *)
Module Cases.

(** A network without candidates next to one with two. *)
Definition two_networks : JsValue :=
  JObject [("56", JObject [("rpcs", JArray [])]);
           ("137", JObject [("rpcs", JArray
              [ JString "https://x.example"; JString "https://z.example" ])])].

(** The upstream serves; every second node answers. *)
Definition flaky : World :=
  {| upstream := Responded 200 (Some "");
     probe := fun _ => Scenarios.every_second;
     files := Scenarios.earlier_files |}.

(** No node answers. *)
Definition silent (chainId : string) (n : nat) (url : string) : FetchOutcome JsValue :=
  Scenarios.dead.

End Cases.

(** ** Property lists *)

Section PropertyLists.
Context {A : Type}.
Implicit Types (o : list (string * A)) (k key : string) (v : A).

Lemma lookup_property_In key o v :
  lookup_property key o = Some v → In (key, v) o.
Proof.
  induction o as [|[k v'] o IH]; simpl; [done|].
  destruct (String.eqb_spec k key) as [->|_].
  - intros [= ->]. by left.
  - intros H. right. by apply IH.
Qed.

Lemma lookup_property_None key o :
  key ∉ o.*1 → lookup_property key o = None.
Proof.
  induction o as [|[k v'] o IH]; simpl; [done|].
  rewrite not_elem_of_cons. intros [Hne Hnotin].
  destruct (String.eqb_spec k key); [congruence | by apply IH].
Qed.

Lemma In_lookup_property key o v :
  NoDup o.*1 → In (key, v) o → lookup_property key o = Some v.
Proof.
  induction o as [|[k v'] o IH]; simpl; [done|].
  rewrite NoDup_cons. intros [Hnotin Hnodup] [[= -> ->]|Hin].
  - by rewrite String.eqb_refl.
  - destruct (String.eqb_spec k key) as [->|_]; [|by apply IH].
    destruct Hnotin. apply list_elem_of_In. by apply (in_map fst) in Hin.
Qed.

Lemma In_set_property key v o k u :
  In (k, u) (set_property o key v) → In (k, u) o ∨ (k = key ∧ u = v).
Proof.
  induction o as [|[k' v'] o IH]; simpl.
  - intros [[= <- <-]|[]]. by right.
  - destruct (String.eqb_spec k' key) as [->|_]; simpl.
    + intros [[= <- <-]|H]; [by right | left; by right].
    + intros [H|H]; [left; by left|].
      destruct (IH H) as [?|?]; [left; by right | by right].
Qed.

Lemma lookup_set_property_eq key v o :
  lookup_property key (set_property o key v) = Some v.
Proof.
  induction o as [|[k' v'] o IH]; simpl.
  - by rewrite String.eqb_refl.
  - destruct (String.eqb_spec k' key) as [->|Hne]; simpl.
    + by rewrite String.eqb_refl.
    + by destruct (String.eqb_spec k' key).
Qed.

Lemma lookup_set_property_ne key v o k :
  k ≠ key → lookup_property k (set_property o key v) = lookup_property k o.
Proof.
  intros Hne. induction o as [|[k' v'] o IH]; simpl.
  - by destruct (String.eqb_spec key k).
  - destruct (String.eqb_spec k' key) as [->|Hne']; simpl.
    + by destruct (String.eqb_spec key k).
    + by rewrite IH.
Qed.

Lemma set_property_keys key v o :
  (set_property o key v).*1 = if decide (key ∈ o.*1) then o.*1 else o.*1 ++ [key].
Proof.
  induction o as [|[k' v'] o IH]; csimpl; [done|].
  destruct (String.eqb_spec k' key) as [->|Hne]; csimpl.
  - rewrite decide_True; [done | by left].
  - rewrite IH. destruct (decide (key ∈ o.*1)) as [Hin|Hnotin].
    + rewrite decide_True; [done | by right].
    + rewrite decide_False; [done|]. rewrite not_elem_of_cons. by split.
Qed.

Lemma set_property_NoDup key v o :
  NoDup o.*1 → NoDup (set_property o key v).*1.
Proof.
  intros Hnodup. rewrite set_property_keys. destruct (decide _); [done|].
  apply NoDup_app. repeat split; [done| |apply NoDup_singleton].
  intros x Hx ->%list_elem_of_singleton. done.
Qed.
End PropertyLists.

(** ** The filter stage *)

Ltac filter_done :=
  rewrite ?filter_cons, ?filter_nil; simpl; rewrite ?filter_nil, ?app_nil_r; done.

Section FilterStage.
Implicit Types (rpc url : JsValue) (rpcs : list JsValue) (urls : list string).

(** What one candidate adds to [urls] on a network other than ["1"]. *)
Lemma candidate_step chainId rpc url urls urls' :
  chainId ≠ "1" →
  Update.select_url chainId rpc = Some url →
  Update.push_if_https urls url = Some urls' →
  urls' = urls ++ https_subset [rpc].
Proof.
  intros Hne Hsel Hpush. apply String.eqb_neq in Hne.
  unfold Update.select_url in Hsel. rewrite Hne in Hsel.
  unfold https_subset, Update.push_if_https in *. simpl.
  destruct rpc as [| |b|n|s|l|props]; repeat (simpl in *; simplify_eq);
    try (by rewrite filter_nil, app_nil_r).
  - destruct (negb (s =? "")) eqn:Hs; simplify_eq.
    + rewrite filter_cons. destruct (startsWith s "https"); simpl; filter_done.
    + apply negb_false_iff, String.eqb_eq in Hs. subst s. filter_done.
  - destruct (lookup_property "url" props) as [v|] eqn:Hurl; simpl in *.
    + rewrite ?bool_decide_eq_true_2 in Hsel by eauto. injection Hsel as <-.
      destruct (ToBoolean v) eqn:Hv.
      * destruct v; simplify_eq. simpl.
        rewrite filter_cons. destruct (startsWith s "https"); simpl; filter_done.
      * simplify_eq. destruct v; simpl in *; try filter_done.
        apply negb_false_iff, String.eqb_eq in Hv. subst s. filter_done.
    + rewrite ?bool_decide_eq_false_2 in Hsel by (intros [? ?]; done).
      injection Hsel as <-. simpl in Hpush. injection Hpush as <-. filter_done.
Qed.

Lemma https_subset_cons rpc rpcs :
  https_subset (rpc :: rpcs) = https_subset [rpc] ++ https_subset rpcs.
Proof.
  unfold https_subset. simpl.
  destruct (candidate_url rpc); simpl; [|done].
  rewrite !filter_cons, filter_nil. by destruct (decide _).
Qed.

Lemma collect_urls_https chainId rpcs urls urls' :
  chainId ≠ "1" →
  Update.collect_urls chainId rpcs urls = Some urls' →
  urls' = urls ++ https_subset rpcs.
Proof.
  intros Hne. revert urls.
  induction rpcs as [|rpc rpcs IH]; intros urls; simpl.
  - intros [= <-]. unfold https_subset. simpl. by rewrite app_nil_r.
  - destruct (Update.select_url chainId rpc) as [url|] eqn:Hsel; simpl; [|done].
    destruct (Update.push_if_https urls url) as [urls1|] eqn:Hpush; simpl; [|done].
    intros H. apply IH in H. subst urls'.
    rewrite (candidate_step _ _ _ _ _ Hne Hsel Hpush).
    by rewrite (https_subset_cons rpc rpcs), <- app_assoc.
Qed.

(** Whatever the network, a URL that is pushed is the URL of the
    candidate at hand. *)
Lemma candidate_step_origin chainId rpc url urls urls' u :
  Update.select_url chainId rpc = Some url →
  Update.push_if_https urls url = Some urls' →
  In u urls' → In u urls ∨ candidate_url rpc = Some u.
Proof.
  intros Hsel Hpush Hin.
  assert (Hurl : url = JNull ∨ url = JUndefined ∨ url = rpc ∧ (∃ s, rpc = JString s)
                 ∨ ∃ props, rpc = JObject props
                            ∧ lookup_property "url" props = Some url).
  { unfold Update.select_url in Hsel.
    destruct rpc as [| |b|n|s|l|props]; simpl in *; simplify_eq; eauto.
    - right; right; left. eauto.
    - destruct (lookup_property "url" props) as [v|] eqn:Hv; simpl in *.
      + rewrite ?bool_decide_eq_true_2 in Hsel by eauto.
        destruct (chainId =? "1"); simpl in *.
        * destruct (strict_equals_string _ _); simplify_eq; eauto 10.
        * simplify_eq. eauto 10.
      + rewrite ?bool_decide_eq_false_2 in Hsel by (intros [? ?]; done).
        simplify_eq. eauto. }
  unfold Update.push_if_https in Hpush.
  destruct Hurl as [->|[->|[[-> [s ->]]|(props & -> & Hprops)]]];
    simpl in *; simplify_eq; auto.
  - destruct (negb (s =? "")); simplify_eq; auto.
    destruct (startsWith s "https"); auto.
    apply in_app_or in Hin as [?|[<-|[]]]; auto.
  - destruct (ToBoolean url) eqn:Hv; simplify_eq; auto.
    destruct url; simplify_eq.
    destruct (startsWith s "https"); auto.
    apply in_app_or in Hin as [?|[<-|[]]]; auto.
    right. by rewrite Hprops.
Qed.

Lemma collect_urls_origin chainId rpcs urls urls' u :
  Update.collect_urls chainId rpcs urls = Some urls' →
  In u urls' →
  In u urls ∨ ∃ rpc, In rpc rpcs ∧ candidate_url rpc = Some u.
Proof.
  revert urls. induction rpcs as [|rpc rpcs IH]; intros urls; simpl.
  - intros [= <-]. auto.
  - destruct (Update.select_url chainId rpc) as [url|] eqn:Hsel; simpl; [|done].
    destruct (Update.push_if_https urls url) as [urls1|] eqn:Hpush; simpl; [|done].
    intros H Hin. destruct (IH _ H Hin) as [Hin1|(rpc' & ? & ?)].
    + destruct (candidate_step_origin _ _ _ _ _ _ Hsel Hpush Hin1); eauto.
    + eauto.
Qed.

(** Where an entry of the filtered mapping comes from. *)
Lemma filter_entries_In entries result result' chainId urls :
  Update.filter_entries entries result = Some result' →
  In (chainId, urls) result' →
  In (chainId, urls) result
  ∨ ∃ config rpcs, In (chainId, config) entries
      ∧ Get config "rpcs" = Some (JArray rpcs)
      ∧ Update.collect_urls chainId rpcs [] = Some urls.
Proof.
  revert result. induction entries as [|[k config] entries IH]; intros result; simpl.
  - intros [= <-]. auto.
  - destruct (Get config "rpcs") as [rpcs|] eqn:Hget; simpl; [|done].
    assert (Hskip : Update.filter_entries entries result = Some result' →
                    In (chainId, urls) result' →
                    In (chainId, urls) result
                    ∨ ∃ config0 rpcs0, ((k, config) = (chainId, config0)
                                        ∨ In (chainId, config0) entries)
                        ∧ Get config0 "rpcs" = Some (JArray rpcs0)
                        ∧ Update.collect_urls chainId rpcs0 [] = Some urls).
    { intros H Hin. destruct (IH _ H Hin) as [?|(c & r & ? & ? & ?)]; eauto 10. }
    destruct rpcs as [| |b|n|s|rpcs|props]; try exact Hskip. clear Hskip.
    destruct (Update.collect_urls k rpcs []) as [urls0|] eqn:Hcollect; simpl; [|done].
    intros H Hin. destruct (IH _ H Hin) as [Hin1|(c & r & ? & ? & ?)]; [|eauto 10].
    apply In_set_property in Hin1 as [?|[-> ->]]; eauto 10.
Qed.

(** A network absent from the entries keeps the value it had. *)
Lemma filter_entries_lookup_other entries result result' chainId :
  chainId ∉ entries.*1 →
  Update.filter_entries entries result = Some result' →
  lookup_property chainId result' = lookup_property chainId result.
Proof.
  revert result. induction entries as [|[k config] entries IH]; intros result; csimpl.
  - by intros _ [= <-].
  - rewrite not_elem_of_cons. intros [Hne Hnotin].
    destruct (Get config "rpcs") as [value|]; simpl; [|done].
    destruct value as [| |b|n|s|rpcs|props]; try apply (IH _ Hnotin).
    destruct (Update.collect_urls k rpcs []) as [urls|]; simpl; [|done].
    intros H. rewrite (IH _ Hnotin H). by apply lookup_set_property_ne.
Qed.

(** A network of the document whose [rpcs] is an array has its filtered
    URLs in the mapping. *)
Lemma filter_entries_lookup entries result result' chainId config rpcs :
  NoDup entries.*1 →
  In (chainId, config) entries →
  Get config "rpcs" = Some (JArray rpcs) →
  Update.filter_entries entries result = Some result' →
  ∃ urls, Update.collect_urls chainId rpcs [] = Some urls
          ∧ lookup_property chainId result' = Some urls.
Proof.
  revert result. induction entries as [|[k c] entries IH]; intros result; csimpl; [done|].
  rewrite NoDup_cons. intros [Hnotin Hnodup] [[= -> ->]|Hin] Hget.
  - rewrite Hget. simpl.
    destruct (Update.collect_urls chainId rpcs []) as [urls|]; simpl; [|done].
    intros H. exists urls. split; [done|].
    rewrite (filter_entries_lookup_other _ _ _ _ Hnotin H).
    apply lookup_set_property_eq.
  - destruct (Get c "rpcs") as [value|]; simpl; [|done].
    destruct value as [| |b|n|s|rpcs'|props]; try by apply IH.
    destruct (Update.collect_urls k rpcs' []) as [urls'|]; simpl; [|done].
    by apply IH.
Qed.

Lemma filter_entries_NoDup entries result result' :
  NoDup result.*1 →
  Update.filter_entries entries result = Some result' →
  NoDup result'.*1.
Proof.
  revert result. induction entries as [|[k c] entries IH]; intros result Hnodup; simpl.
  - by intros [= <-].
  - destruct (Get c "rpcs") as [value|]; simpl; [|done].
    destruct value as [| |b|n|s|rpcs'|props]; try by apply IH.
    destruct (Update.collect_urls k rpcs' []) as [urls'|]; simpl; [|done].
    apply IH. by apply set_property_NoDup.
Qed.
End FilterStage.

(** ** The prober *)

Section Prober.
Implicit Types (fetch : nat → string → FetchOutcome JsValue) (urls valid : list string).

Lemma checkRpcUrl_probe_succeeds (fetch1 : string → FetchOutcome JsValue) url :
  Update.checkRpcUrl fetch1 url = probe_succeeds (fetch1 url).
Proof.
  unfold Update.checkRpcUrl, Update.checkRpcUrl_try, probe_succeeds.
  destruct (fetch1 url) as [|status [data|]]; simpl; [done| |by destruct (ok status)].
  destruct (ok status); simpl; [|by destruct data].
  destruct data as [| |b|n|s|l|props]; simpl; try done.
  destruct (lookup_property "result" props) as [[| |b|n|s|l|props']|]; simpl; try done.
  - by destruct b.
  - destruct n as [| |z]; simpl; try done. by destruct (z =? 0)%Z.
  - by destruct s.
Qed.

Lemma passed_from_app fetch n urls1 urls2 :
  passed_from fetch n (urls1 ++ urls2)
  = passed_from fetch n urls1 ++ passed_from fetch (n + List.length urls1) urls2.
Proof.
  revert n. induction urls1 as [|u urls1 IH]; intros n; simpl.
  - by rewrite Nat.add_0_r.
  - rewrite IH, <- app_assoc. do 3 f_equal. lia.
Qed.

Lemma passed_from_sublist fetch n urls : passed_from fetch n urls `sublist_of` urls.
Proof.
  revert n. induction urls as [|u urls IH]; intros n; simpl; [constructor|].
  destruct (probe_succeeds (fetch n u)); simpl.
  - by apply sublist_skip.
  - by apply sublist_cons.
Qed.

Lemma collect_valid_probe_chunk fetch calls chunk valid :
  Update.collect_valid (Update.probe_chunk fetch calls chunk) valid
  = valid ++ passed_from fetch calls chunk.
Proof.
  revert calls valid. induction chunk as [|u chunk IH]; intros calls valid.
  - simpl. by rewrite app_nil_r.
  - unfold Update.probe_chunk. simpl.
    rewrite (imap_ext _ (λ j url, (url, Update.checkRpcUrl (fetch (S calls + j)) url))).
    2:{ intros j x _. simpl. do 3 f_equal. lia. }
    fold (Update.probe_chunk fetch (S calls) chunk). rewrite IH.
    rewrite Nat.add_0_r, checkRpcUrl_probe_succeeds.
    destruct (probe_succeeds (fetch calls u)); simpl; [|done].
    by rewrite <- app_assoc.
Qed.

Lemma check_chunks_passed fetch calls chunks valid :
  Update.check_chunks fetch calls chunks valid
  = valid ++ passed_from fetch calls (concat chunks).
Proof.
  revert calls valid. induction chunks as [|chunk chunks IH]; intros calls valid; simpl.
  - by rewrite app_nil_r.
  - by rewrite IH, collect_valid_probe_chunk, passed_from_app, app_assoc.
Qed.

(** With a positive width the chunking loop ends within [length urls]
    rounds, and its chunks are the list cut into pieces. *)
Lemma make_chunks_concat urls concurrency fuel i chunks :
  0 < concurrency →
(List.length urls - i ≤ fuel)%nat →
  ∃ more, Update.make_chunks fuel urls concurrency i chunks = Some (chunks ++ more)
          ∧ concat more = drop i urls.
Proof.
  intros Hpos. revert i chunks.
  induction fuel as [|fuel IH]; intros i chunks Hfuel; simpl.
  - destruct (Nat.ltb_spec i (List.length urls)); [lia|].
    exists []. rewrite app_nil_r, drop_ge by done. done.
  - destruct (Nat.ltb_spec i (List.length urls)).
    + destruct (IH (i + concurrency) (chunks ++ [Update.slice urls i (i + concurrency)]))
        as (more & -> & Hmore); [lia|].
      exists (Update.slice urls i (i + concurrency) :: more). split.
      * by rewrite <- app_assoc.
      * simpl. rewrite Hmore. unfold Update.slice.
        replace (i + concurrency - i) with concurrency by lia.
        by rewrite <- drop_drop, take_drop.
    + exists []. rewrite app_nil_r, drop_ge by done. done.
Qed.

Lemma checkRpcUrls_passed fetch urls concurrency :
  0 < concurrency →
  Update.checkRpcUrls fetch urls concurrency = Some (passed fetch urls).
Proof.
  intros Hpos. unfold Update.checkRpcUrls.
  destruct (make_chunks_concat urls concurrency (List.length urls) 0 [] Hpos)
    as (more & -> & Hmore); [lia|].
  simpl. by rewrite check_chunks_passed, Hmore.
Qed.

Implicit Types (probe : string → nat → string → FetchOutcome JsValue).

Lemma validate_entries_total probe entries validated :
  is_Some (Update.validate_entries probe entries validated).
Proof.
  revert validated. induction entries as [|[chainId urls] entries IH]; intros validated; simpl.
  - eauto.
  - destruct (List.length urls =? 0)%nat; [apply IH|].
    rewrite checkRpcUrls_passed by lia. simpl. apply IH.
Qed.

(** Where an entry of the validated mapping comes from. *)
Lemma validate_entries_In probe entries validated validated' chainId urls :
  Update.validate_entries probe entries validated = Some validated' →
  In (chainId, urls) validated' →
  In (chainId, urls) validated
  ∨ ∃ eligible, In (chainId, eligible) entries ∧ urls = passed (probe chainId) eligible.
Proof.
  revert validated.
  induction entries as [|[k eligible] entries IH]; intros validated; simpl.
  - intros [= <-]. auto.
  - destruct (Nat.eqb_spec (List.length eligible) 0) as [Hlen|Hlen].
    + intros H Hin. destruct (IH _ H Hin) as [Hin1|(e & ? & ?)]; [|eauto].
      apply In_set_property in Hin1 as [?|[-> ->]]; [auto|].
      right. exists eligible. split; [by left|].
      by destruct eligible.
    + rewrite checkRpcUrls_passed by lia. simpl.
      intros H Hin. destruct (IH _ H Hin) as [Hin1|(e & ? & ?)]; [|eauto].
      apply In_set_property in Hin1 as [?|[-> ->]]; eauto.
Qed.

Lemma validate_entries_lookup_other probe entries validated validated' chainId :
  chainId ∉ entries.*1 →
  Update.validate_entries probe entries validated = Some validated' →
  lookup_property chainId validated' = lookup_property chainId validated.
Proof.
  revert validated.
  induction entries as [|[k eligible] entries IH]; intros validated; csimpl.
  - by intros _ [= <-].
  - rewrite not_elem_of_cons. intros [Hne Hnotin].
    destruct (List.length eligible =? 0)%nat.
    + intros H. rewrite (IH _ Hnotin H). by apply lookup_set_property_ne.
    + rewrite checkRpcUrls_passed by lia. simpl.
      intros H. rewrite (IH _ Hnotin H). by apply lookup_set_property_ne.
Qed.

(** An entry of the filtered mapping has its validation in the output. *)
Lemma validate_entries_lookup probe entries validated validated' chainId eligible :
  NoDup entries.*1 →
  In (chainId, eligible) entries →
  Update.validate_entries probe entries validated = Some validated' →
  lookup_property chainId validated' = Some (passed (probe chainId) eligible).
Proof.
  revert validated.
  induction entries as [|[k e] entries IH]; intros validated; csimpl; [done|].
  rewrite NoDup_cons. intros [Hnotin Hnodup] [[= -> ->]|Hin]; [|].
  - destruct (Nat.eqb_spec (List.length eligible) 0) as [Hlen|Hlen].
    + intros H. rewrite (validate_entries_lookup_other _ _ _ _ _ Hnotin H).
      rewrite lookup_set_property_eq. by destruct eligible.
    + rewrite checkRpcUrls_passed by lia. simpl.
      intros H. rewrite (validate_entries_lookup_other _ _ _ _ _ Hnotin H).
      apply lookup_set_property_eq.
  - destruct (List.length e =? 0)%nat; [by apply IH|].
    rewrite checkRpcUrls_passed by lia. simpl. by apply IH.
Qed.
End Prober.

(** ** The order in which the mappings are listed *)

Section Listing.

Lemma key_le_trans k1 k2 k3 :
  key_le k1 k2 = true → key_le k2 k3 = true → key_le k1 k3 = true.
Proof.
  unfold key_le.
  destruct (array_index k1), (array_index k2), (array_index k3); try done.
  rewrite !N.leb_le. lia.
Qed.

Lemma key_le_false k1 k2 : key_le k1 k2 = false → key_le k2 k1 = true.
Proof.
  unfold key_le. destruct (array_index k1), (array_index k2); try done.
  rewrite N.leb_gt, N.leb_le. lia.
Qed.

Lemma StronglySorted_app_delete {A} (R : A → A → Prop) l1 x l2 :
  StronglySorted R (l1 ++ x :: l2) → StronglySorted R (l1 ++ l2).
Proof.
  induction l1 as [|a l1 IH]; simpl; intros H.
  - by apply StronglySorted_inv in H as [? _].
  - apply StronglySorted_inv in H as [Hrest Hall]. constructor; [by apply IH|].
    apply Forall_app in Hall as [? Hall]. apply Forall_app. split; [done|].
    by apply Forall_cons in Hall as [_ ?].
Qed.

Context {A : Type}.
Implicit Types (entry : string * A) (l : list (string * A)).

Lemma insert_property_Permutation entry l : insert_property entry l ≡ₚ entry :: l.
Proof.
  induction l as [|e l IH]; simpl; [done|].
  destruct (key_le entry.1 e.1); [done|]. by rewrite IH, Permutation_swap.
Qed.

Lemma EnumerableOwnProperties_Permutation l : EnumerableOwnProperties l ≡ₚ l.
Proof.
  induction l as [|e l IH]; simpl; [done|].
  by rewrite insert_property_Permutation, IH.
Qed.

Lemma insert_property_listed entry l :
  in_listing_order l.*1 → in_listing_order (insert_property entry l).*1.
Proof.
  unfold in_listing_order. induction l as [|e l IH]; csimpl; intros Hl.
  - repeat constructor.
  - apply StronglySorted_inv in Hl as [Hrest Hall].
    destruct (key_le entry.1 e.1) eqn:Hle; csimpl.
    + constructor; [by constructor|]. constructor; [done|].
      eapply Forall_impl; [exact Hall|]. intros k Hk. by eapply key_le_trans.
    + constructor; [by apply IH|].
      rewrite (insert_property_Permutation entry l). csimpl.
      constructor; [by apply key_le_false | done].
Qed.

Lemma EnumerableOwnProperties_listed l :
  in_listing_order (EnumerableOwnProperties l).*1.
Proof.
  induction l as [|e l IH]; simpl; [constructor|]. by apply insert_property_listed.
Qed.

(** Listing what is already in listing order changes nothing. *)
Lemma EnumerableOwnProperties_id l :
  in_listing_order l.*1 → EnumerableOwnProperties l = l.
Proof.
  unfold in_listing_order. induction l as [|e l IH]; csimpl; [done|]. intros Hl.
  apply StronglySorted_inv in Hl as [Hrest Hall]. rewrite IH by done.
  destruct l as [|e' l]; [done|]. simpl.
  apply Forall_cons in Hall as [-> _]. done.
Qed.

Lemma EnumerableOwnProperties_NoDup l :
  NoDup l.*1 → NoDup (EnumerableOwnProperties l).*1.
Proof. by rewrite EnumerableOwnProperties_Permutation. Qed.
End Listing.

Section ListedMappings.
Implicit Types (entries : list (string * JsValue)) (result : list (string * list string)).
Implicit Types (probe : string → nat → string → FetchOutcome JsValue).

Lemma Object_entries_listed extraRpcs entries :
  Object_entries extraRpcs = Some entries → in_listing_order entries.*1.
Proof.
  destruct extraRpcs; simpl; intros [= <-]; try apply EnumerableOwnProperties_listed.
  all: constructor.
Qed.

(** The filter creates the networks of its mapping in listing order when
    it meets them in that order. *)
Lemma filter_entries_listed entries result result' :
  in_listing_order (result.*1 ++ entries.*1) →
  Update.filter_entries entries result = Some result' →
  in_listing_order result'.*1.
Proof.
  unfold in_listing_order. revert result.
  induction entries as [|[k config] entries IH]; intros result Hl; csimpl.
  - intros [= <-]. by rewrite app_nil_r in Hl.
  - destruct (Get config "rpcs") as [value|]; simpl; [|done].
    pose proof (StronglySorted_app_delete _ _ _ _ Hl) as Hskip.
    destruct value as [| |b|n|s|rpcs|props]; try by apply IH.
    destruct (Update.collect_urls k rpcs []) as [urls|]; simpl; [|done].
    apply IH. rewrite set_property_keys. destruct (decide _); [done|].
    by rewrite <- app_assoc.
Qed.

Lemma filter_stage_listed extraRpcs result :
  Update.filter_stage extraRpcs = Some result → in_listing_order result.*1.
Proof.
  unfold Update.filter_stage.
  destruct (Object_entries extraRpcs) as [entries|] eqn:Hentries; simpl; [|done].
  apply filter_entries_listed. simpl. by eapply Object_entries_listed.
Qed.

Lemma validate_entries_listed probe result validated validated' :
  in_listing_order (validated.*1 ++ result.*1) →
  Update.validate_entries probe result validated = Some validated' →
  in_listing_order validated'.*1.
Proof.
  unfold in_listing_order. revert validated.
  induction result as [|[k urls] result IH]; intros validated Hl; csimpl.
  - intros [= <-]. by rewrite app_nil_r in Hl.
  - assert (Hnext : ∀ v, StronglySorted (λ k1 k2, key_le k1 k2 = true)
                           ((set_property validated k v).*1 ++ result.*1)).
    { intros v. rewrite set_property_keys. destruct (decide _).
      - by eapply StronglySorted_app_delete.
      - by rewrite <- app_assoc. }
    destruct (List.length urls =? 0)%nat; [by apply IH|].
    destruct (Update.checkRpcUrls (probe k) urls 30); simpl; [|done]. by apply IH.
Qed.

Lemma validate_stage_listed probe result validated :
  in_listing_order result.*1 →
  Update.validate_stage probe result = Some validated →
  in_listing_order validated.*1.
Proof. apply (validate_entries_listed probe result []). Qed.

(** The mappings of a run are created in listing order, so that listing
    them ([Object.entries(result)], [JSON.stringify(validatedResult)]) gives
    them as they are. *)
Lemma main_on_listing disk Function_call w :
  Update.main_on disk Function_call w
  = match upstream w with
    | Rejected => Some (1%Z, files w)
    | Responded status body =>
        if negb (ok status) then Some (1%Z, files w)
        else
          match body with
          | None => Some (1%Z, files w)
          | Some content =>
              let (returned, fs) :=
                Function_call (Update.function_body content) (files w) in
              match returned ≫= Update.filter_stage with
              | None => Some (1%Z, fs)
              | Some result =>
                  validatedResult ← Update.validate_stage (probe w) result;
                  if negb (writes_rpc_providers_json disk) then Some (1%Z, fs)
                  else
                    newVersion ← Update.update_version (providers_version fs);
                    if negb (writes_providers_version disk)
                    then Some (1%Z, {| rpc_providers_json := Some validatedResult;
                                       providers_version := providers_version fs |})
                    else Some (0%Z, {| rpc_providers_json := Some validatedResult;
                                       providers_version := Holds newVersion |})
              end
          end
    end.
Proof.
  unfold Update.main_on.
  destruct (upstream w) as [|status [content|]]; [done| |done].
  destruct (ok status); simpl; [|done].
  destruct (Function_call _ _) as [[extraRpcs|] fs]; simpl; [|done].
  destruct (Update.filter_stage extraRpcs) as [result|] eqn:Hfilter; [|done].
  pose proof (filter_stage_listed _ _ Hfilter) as Hresult.
  rewrite (EnumerableOwnProperties_id result Hresult).
  destruct (Update.validate_stage (probe w) result) as [validated|] eqn:Hvalidate;
    simpl; [|done].
  by rewrite (EnumerableOwnProperties_id validated
                (validate_stage_listed _ _ _ Hresult Hvalidate)).
Qed.

Lemma main_listing Function_call w :
  Update.main Function_call w
  = match upstream w with
    | Rejected => Some (1%Z, files w)
    | Responded status body =>
        if negb (ok status) then Some (1%Z, files w)
        else
          match body with
          | None => Some (1%Z, files w)
          | Some content =>
              let (returned, fs) :=
                Function_call (Update.function_body content) (files w) in
              match returned ≫= Update.filter_stage with
              | None => Some (1%Z, fs)
              | Some result =>
                  validatedResult ← Update.validate_stage (probe w) result;
                  newVersion ← Update.update_version (providers_version fs);
                  Some (0%Z, {| rpc_providers_json := Some validatedResult;
                                providers_version := Holds newVersion |})
              end
          end
    end.
Proof. unfold Update.main. by rewrite main_on_listing. Qed.

Lemma part_000_main_on_listing disk Function_call w :
  Part000.main_on disk Function_call w
  = match upstream w with
    | Rejected => Some (1%Z, files w)
    | Responded status body =>
        if negb (ok status) then Some (1%Z, files w)
        else
          match body with
          | None => Some (1%Z, files w)
          | Some content =>
              let (returned, fs) :=
                Function_call (Part000.function_body content) (files w) in
              match returned ≫= Part000.filter_stage with
              | None => Some (1%Z, fs)
              | Some result =>
                  if negb (writes_rpc_providers_json disk) then Some (1%Z, fs)
                  else
                    newVersion ← Part000.update_version (providers_version fs);
                    if negb (writes_providers_version disk)
                    then Some (1%Z, {| rpc_providers_json := Some result;
                                       providers_version := providers_version fs |})
                    else Some (0%Z, {| rpc_providers_json := Some result;
                                       providers_version := Holds newVersion |})
              end
          end
    end.
Proof.
  unfold Part000.main_on.
  destruct (upstream w) as [|status [content|]]; [done| |done].
  destruct (ok status); simpl; [|done].
  destruct (Function_call _ _) as [[extraRpcs|] fs]; simpl; [|done].
  destruct (Part000.filter_stage extraRpcs) as [result|] eqn:Hfilter; [|done].
  change (Part000.filter_stage extraRpcs) with (Update.filter_stage extraRpcs) in Hfilter.
  by rewrite (EnumerableOwnProperties_id result (filter_stage_listed _ _ Hfilter)).
Qed.

Lemma part_000_main_listing Function_call w :
  Part000.main Function_call w
  = match upstream w with
    | Rejected => Some (1%Z, files w)
    | Responded status body =>
        if negb (ok status) then Some (1%Z, files w)
        else
          match body with
          | None => Some (1%Z, files w)
          | Some content =>
              let (returned, fs) :=
                Function_call (Part000.function_body content) (files w) in
              match returned ≫= Part000.filter_stage with
              | None => Some (1%Z, fs)
              | Some result =>
                  newVersion ← Part000.update_version (providers_version fs);
                  Some (0%Z, {| rpc_providers_json := Some result;
                                providers_version := Holds newVersion |})
              end
          end
    end.
Proof. unfold Part000.main. by rewrite part_000_main_on_listing. Qed.
End ListedMappings.

(** ** The run as a whole *)

Section Run.
Variable Function_call : Engine.
Implicit Types (w : World) (fs : Files).

(** A run that exits with status 0 went through every stage. *)
Lemma main_success w fs' :
  Update.main Function_call w = Some (0%Z, fs') →
  ∃ status content extraRpcs fs result validated version,
    upstream w = Responded status (Some content)
    ∧ Function_call (Update.function_body content) (files w) = (Some extraRpcs, fs)
    ∧ Update.filter_stage extraRpcs = Some result
    ∧ Update.validate_stage (probe w) result = Some validated
    ∧ Update.update_version (providers_version fs) = Some version
    ∧ fs' = {| rpc_providers_json := Some validated;
               providers_version := Holds version |}.
Proof.
  rewrite main_listing.
  destruct (upstream w) as [|status [content|]]; [done| |by destruct (ok status)].
  destruct (ok status); simpl; [|done].
  destruct (Function_call _ _) as [[extraRpcs|] fs] eqn:Hcall; simpl; [|done].
  destruct (Update.filter_stage extraRpcs) as [result|] eqn:Hfilter; [|done].
  destruct (Update.validate_stage (probe w) result) as [validated|] eqn:Hvalidate;
    simpl; [|done].
  destruct (Update.update_version (providers_version fs)) as [version|] eqn:Hversion;
    simpl; [|done].
  intros [= <-]. by exists status, content, extraRpcs, fs, result, validated, version.
Qed.

(** An entry of the output catalog is the validation of an entry of the
    filtered mapping, which is the filtering of a network of the
    document. *)
Lemma output_entry_origin w fs chainId urls :
  Update.main Function_call w = Some (0%Z, fs) →
  output_urls fs chainId = Some urls →
  ∃ extraRpcs rpcs eligible,
    extracted Function_call w extraRpcs
    ∧ candidates_of extraRpcs chainId rpcs
    ∧ Update.collect_urls chainId rpcs [] = Some eligible
    ∧ urls = passed (probe w chainId) eligible.
Proof.
  intros Hmain Hout.
  destruct (main_success _ _ Hmain)
    as (status & content & extraRpcs & fs1 & result & validated & version
        & Hup & Hcall & Hfilter & Hvalidate & _ & ->).
  unfold output_urls in Hout. simpl in Hout. apply lookup_property_In in Hout.
  destruct (validate_entries_In _ _ _ _ _ _ Hvalidate Hout) as [[]|(eligible & Hin & ->)].
  unfold Update.filter_stage in Hfilter.
  destruct (Object_entries extraRpcs) as [entries|] eqn:Hentries; simpl in Hfilter; [|done].
  destruct (filter_entries_In _ _ _ _ _ Hfilter Hin) as [[]|(config & rpcs & ? & ? & ?)].
  exists extraRpcs, rpcs, eligible. repeat split; try done.
  - by exists status, content, fs1.
  - by exists entries, config.
Qed.
End Run.

(** ** The properties *)

(** C1, evaluated on the specification's own scenario: on network ["1"] the
    filter keeps the bare string [https://a.example], which has no
    tracking attribute, next to the candidate tracked [none]; with every
    node alive it is written to the output catalog under ["1"]. *)
Theorem network_1_bare_string_is_eligible :
  Update.filter_stage Scenarios.network_1
  = Some [("1", ["https://a.example"; "https://b.example"])]
  ∧ ∃ fs, Update.main (returning Scenarios.network_1) (Scenarios.serving "") = Some (0%Z, fs)
          ∧ output_urls fs "1" = Some ["https://a.example"; "https://b.example"]
          ∧ tracking_of (JString "https://a.example") = None.
Proof.
  split; [reflexivity|].
  eexists. split; [vm_compute; reflexivity|]. split; reflexivity.
Qed.

(** C3: every URL in the output catalog under a network id is, verbatim,
    the URL of a candidate (the bare string, or the [url] field of the
    object) in that same network's candidate sequence of the extracted
    document. *)
Theorem output_urls_are_candidates (Function_call : Engine) (w : World) (fs : Files)
    (chainId : string) (urls : list string) (u : string) :
  Update.main Function_call w = Some (0%Z, fs) →
  output_urls fs chainId = Some urls →
  In u urls →
  ∃ extraRpcs rpcs rpc,
    extracted Function_call w extraRpcs
    ∧ candidates_of extraRpcs chainId rpcs
    ∧ In rpc rpcs
    ∧ candidate_url rpc = Some u.
Proof.
  intros Hmain Hout Hin.
  destruct (output_entry_origin _ _ _ _ _ Hmain Hout)
    as (extraRpcs & rpcs & eligible & Hex & Hcand & Hcollect & ->).
  assert (Hin' : In u eligible).
  { apply list_elem_of_In. eapply elem_of_sublist; [|apply passed_from_sublist].
    apply list_elem_of_In, Hin. }
  destruct (collect_urls_origin _ _ _ _ _ Hcollect Hin') as [[]|(rpc & ? & ?)].
  by exists extraRpcs, rpcs, rpc.
Qed.

Lemma output_urls_are_candidates_witness :
  let fs := {| rpc_providers_json := Some [("137", ["https://x.example"])];
               providers_version := Holds "8" |} in
  Update.main (returning Scenarios.network_137) (Scenarios.serving "") = Some (0%Z, fs)
  ∧ output_urls fs "137" = Some ["https://x.example"]
  ∧ In "https://x.example" ["https://x.example"]
  ∧ ∃ extraRpcs rpcs rpc,
      extracted (returning Scenarios.network_137) (Scenarios.serving "") extraRpcs
      ∧ candidates_of extraRpcs "137" rpcs
      ∧ In rpc rpcs
      ∧ candidate_url rpc = Some "https://x.example".
Proof.
  intros fs.
  assert (H1 : Update.main (returning Scenarios.network_137) (Scenarios.serving "")
               = Some (0%Z, fs)) by (vm_compute; reflexivity).
  assert (H2 : output_urls fs "137" = Some ["https://x.example"]) by reflexivity.
  assert (H3 : In "https://x.example" ["https://x.example"]) by (simpl; auto).
  repeat split; try assumption.
  exact (output_urls_are_candidates _ _ _ _ _ _ H1 H2 H3).
Defined.

(** C4: on a successful run and for a network id other than ["1"], the
    output URL sequence is exactly the candidates' URLs that begin with
    [https] and whose probe succeeded, in the candidates' order, whether
    the candidate is a bare string or an object and whatever its tracking
    attribute: every output sequence is of that form, and every network of
    the document that has a candidate array has that sequence in the
    output. *)
Theorem other_networks_output (Function_call : Engine) (w : World) (fs : Files)
    (chainId : string) :
  Update.main Function_call w = Some (0%Z, fs) →
  chainId ≠ "1" →
  (∀ urls, output_urls fs chainId = Some urls →
     ∃ extraRpcs rpcs,
       extracted Function_call w extraRpcs
       ∧ candidates_of extraRpcs chainId rpcs
       ∧ urls = passed (probe w chainId) (https_subset rpcs))
  ∧ (∀ extraRpcs entries config rpcs,
       extracted Function_call w extraRpcs →
       Object_entries extraRpcs = Some entries →
       NoDup entries.*1 →
       In (chainId, config) entries →
       Get config "rpcs" = Some (JArray rpcs) →
       output_urls fs chainId = Some (passed (probe w chainId) (https_subset rpcs))).
Proof.
  intros Hmain Hne. split.
  - intros urls Hout.
    destruct (output_entry_origin _ _ _ _ _ Hmain Hout)
      as (extraRpcs & rpcs & eligible & Hex & Hcand & Hcollect & ->).
    exists extraRpcs, rpcs. repeat split; try done.
    by rewrite (collect_urls_https _ _ _ _ Hne Hcollect).
  - intros extraRpcs entries config rpcs Hex Hentries Hnodup Hin Hget.
    destruct (main_success _ _ _ Hmain)
      as (status & content & extraRpcs' & fs1 & result & validated & version
          & Hup & Hcall & Hfilter & Hvalidate & _ & ->).
    destruct Hex as (status' & content' & fs1' & Hup' & Hcall').
    rewrite Hup in Hup'. injection Hup' as <- <-.
    rewrite Hcall in Hcall'. injection Hcall' as <- <-.
    unfold Update.filter_stage in Hfilter. rewrite Hentries in Hfilter. simpl in Hfilter.
    destruct (filter_entries_lookup _ _ _ _ _ _ Hnodup Hin Hget Hfilter)
      as (urls & Hcollect & Hlookup).
    apply collect_urls_https in Hcollect; [|done]. simpl in Hcollect. subst urls.
    unfold output_urls. simpl.
    apply (validate_entries_lookup _ result []); [|by apply lookup_property_In|done].
    by apply (filter_entries_NoDup entries []); [constructor|].
Qed.

Lemma other_networks_output_witness :
  let fs := {| rpc_providers_json := Some [("137", ["https://x.example"])];
               providers_version := Holds "8" |} in
  let w := Scenarios.serving "" in
  Update.main (returning Scenarios.network_137) w = Some (0%Z, fs)
  ∧ "137" ≠ "1"
  ∧ output_urls fs "137"
    = Some (passed (probe w "137")
              (https_subset [JString "https://x.example"; JString "http://y.example"])).
Proof.
  intros fs w.
  assert (H1 : Update.main (returning Scenarios.network_137) w = Some (0%Z, fs))
    by (vm_compute; reflexivity).
  assert (H2 : "137" ≠ "1") by discriminate.
  split; [exact H1|]. split; [exact H2|].
  destruct (other_networks_output _ _ _ _ H1 H2) as [_ Hall].
  eapply (Hall Scenarios.network_137).
  - by exists 200, "", Scenarios.earlier_files.
  - reflexivity.
  - repeat constructor. apply not_elem_of_nil.
  - by left.
  - reflexivity.
Defined.

(** C5: a probe succeeds exactly when the response has a successful status
    and its decoded body is an object whose result field is a string
    beginning with [0x]; on every other outcome (rejected request,
    non-success status, body that does not decode, result missing or of
    another type) [checkRpcUrl] returns [false], the exception of the
    [try] block included.  No outcome of the probes halts the run: its
    exit status and the version counter it leaves are the same whatever
    the nodes answer. *)
Theorem probe_success_criterion (fetch : string → FetchOutcome JsValue) (url : string)
    (Function_call : Engine) (w : World)
    (probe' : string → nat → string → FetchOutcome JsValue) :
  Update.checkRpcUrl fetch url = probe_succeeds (fetch url)
  ∧ status_and_version (Update.main Function_call (with_probe w probe'))
    = status_and_version (Update.main Function_call w).
Proof.
  split; [apply checkRpcUrl_probe_succeeds|].
  rewrite !main_listing. unfold with_probe. simpl.
  destruct (upstream w) as [|status [content|]]; [done| |done].
  destruct (ok status); simpl; [|done].
  destruct (Function_call _ _) as [[extraRpcs|] fs]; simpl; [|done].
  destruct (Update.filter_stage extraRpcs) as [result|]; [|done].
  destruct (validate_entries_total probe' result []) as [validated' Hvalidated'].
  destruct (validate_entries_total (probe w) result []) as [validated Hvalidated].
  unfold Update.validate_stage. rewrite Hvalidated', Hvalidated. simpl.
  by destruct (Update.update_version (providers_version fs)).
Qed.

(** C7: with a positive width, [checkRpcUrls] returns, and what it returns
    is a subsequence of its input in the input's order, whatever the
    outcome of each request. *)
Theorem checkRpcUrls_preserves_order (fetch : nat → string → FetchOutcome JsValue)
    (urls : list string) (concurrency : nat) :
  0 < concurrency →
  ∃ valid, Update.checkRpcUrls fetch urls concurrency = Some valid
           ∧ valid `sublist_of` urls.
Proof.
  intros Hpos. exists (passed fetch urls). split.
  - by apply checkRpcUrls_passed.
  - apply passed_from_sublist.
Qed.

Lemma checkRpcUrls_preserves_order_witness :
  0 < 2
  ∧ ∃ valid, Update.checkRpcUrls Scenarios.every_second ["a"; "b"; "c"; "d"; "e"] 2 = Some valid
             ∧ valid `sublist_of` ["a"; "b"; "c"; "d"; "e"].
Proof.
  split; [lia|].
  apply (checkRpcUrls_preserves_order Scenarios.every_second ["a"; "b"; "c"; "d"; "e"] 2).
  lia.
Defined.

(** C9: when the upstream fetch fails (the request is rejected, or the
    status is not a success), the run ends with exit status 1 and leaves
    the catalog file and the version counter as they were. *)
Theorem fetch_failure_aborts (Function_call : Engine) (w : World) :
  fetch_failed (upstream w) = true →
  Update.main Function_call w = Some (1%Z, files w).
Proof.
  rewrite main_listing. unfold fetch_failed.
  destruct (upstream w) as [|status body]; [done|].
  by intros ->.
Qed.

Lemma fetch_failure_aborts_witness :
  fetch_failed (upstream Scenarios.upstream_down) = true
  ∧ Update.main (returning Scenarios.network_137) Scenarios.upstream_down
    = Some (1%Z, Scenarios.earlier_files).
Proof.
  split; [reflexivity|].
  apply (fetch_failure_aborts (returning Scenarios.network_137) Scenarios.upstream_down).
  reflexivity.
Defined.

(** ** The two scripts side by side *)

Section Variants.

Lemma collect_urls_agree chainId rpcs urls :
  Update.collect_urls chainId rpcs urls = Part000.collect_urls chainId rpcs urls.
Proof.
  revert urls. induction rpcs as [|rpc rpcs IH]; intros urls; simpl; [done|].
  change (Part000.select_url chainId rpc) with (Update.select_url chainId rpc).
  destruct (Update.select_url chainId rpc) as [url|]; simpl; [|done].
  change (Part000.push_if_https urls url) with (Update.push_if_https urls url).
  destruct (Update.push_if_https urls url) as [urls'|]; simpl; [|done].
  apply IH.
Qed.

Lemma filter_entries_agree entries result :
  Update.filter_entries entries result = Part000.filter_entries entries result.
Proof.
  revert result. induction entries as [|[chainId config] entries IH]; intros result; simpl.
  - done.
  - destruct (Get config "rpcs") as [value|]; simpl; [|done].
    destruct value as [| |b|n|s|rpcs|props]; try apply IH.
    generalize (collect_urls_agree chainId rpcs []).
    destruct (Update.collect_urls chainId rpcs []); intros <-; simpl; [apply IH | done].
Qed.

Lemma filter_stage_agree extraRpcs :
  Update.filter_stage extraRpcs = Part000.filter_stage extraRpcs.
Proof.
  unfold Update.filter_stage, Part000.filter_stage.
  destruct (Object_entries extraRpcs); simpl; [apply filter_entries_agree | done].
Qed.

End Variants.

(** C10: the two scripts build the same filtered mapping from every
    extracted document; and whenever the script without the prober ends
    with some status and files, the script with the prober ends with the
    same status, the same version counter and, on success, the catalog
    that the validation stage makes of the other script's catalog. *)
Theorem variants_agree_before_probing (Function_call : Engine) (w : World)
    (status : Z) (fs : Files) :
  Part000.main Function_call w = Some (status, fs) →
  (∀ extraRpcs, Update.filter_stage extraRpcs = Part000.filter_stage extraRpcs)
  ∧ Update.main Function_call w
    = Some (status,
            if (status =? 0)%Z
            then {| rpc_providers_json :=
                      rpc_providers_json fs ≫= Update.validate_stage (probe w);
                    providers_version := providers_version fs |}
            else fs).
Proof.
  intros Hmain. split; [apply filter_stage_agree|].
  rewrite part_000_main_listing in Hmain. rewrite main_listing.
  change (Part000.function_body) with (Update.function_body) in Hmain.
  destruct (upstream w) as [|st [content|]].
  - by injection Hmain as <- <-.
  - destruct (ok st); simpl in *; [|by injection Hmain as <- <-].
    destruct (Function_call _ _) as [[extraRpcs|] fs1]; simpl in *;
      [|by injection Hmain as <- <-].
    rewrite filter_stage_agree.
    destruct (Part000.filter_stage extraRpcs) as [result|];
      [|by injection Hmain as <- <-].
    destruct (validate_entries_total (probe w) result []) as [validated Hvalidated].
    unfold Update.validate_stage at 1. rewrite Hvalidated. simpl in *.
    change (Part000.update_version) with (Update.update_version) in Hmain.
    destruct (Update.update_version (providers_version fs1)) as [version|];
      simpl in *; [|done].
    injection Hmain as <- <-. simpl.
    unfold Update.validate_stage. by rewrite Hvalidated.
  - destruct (ok st); by injection Hmain as <- <-.
Qed.

Lemma variants_agree_before_probing_witness :
  let fs := {| rpc_providers_json := Some [("137", ["https://x.example"])];
               providers_version := Holds "8" |} in
  Part000.main (returning Scenarios.network_137) (Scenarios.serving "") = Some (0%Z, fs)
  ∧ (∀ extraRpcs, Update.filter_stage extraRpcs = Part000.filter_stage extraRpcs)
  ∧ Update.main (returning Scenarios.network_137) (Scenarios.serving "")
    = Some (0%Z,
            {| rpc_providers_json :=
                 rpc_providers_json fs ≫= Update.validate_stage (probe (Scenarios.serving ""));
               providers_version := providers_version fs |}).
Proof.
  intros fs.
  assert (H : Part000.main (returning Scenarios.network_137) (Scenarios.serving "")
              = Some (0%Z, fs)) by (vm_compute; reflexivity).
  split; [exact H|].
  exact (variants_agree_before_probing _ _ _ _ H).
Defined.

(** C6, amended: a network whose value is neither [null] nor [undefined]
    and holds no array under [rpcs] is skipped with no entry emitted, and a
    candidate that is neither a string nor an object with a [url] field,
    or whose [url] field holds a falsy value, is dropped: the filter gives
    what it gives on the document without that network or that candidate,
    the other networks and candidates being processed as usual. *)
Theorem malformed_entries_skipped (chainId : string) (config rpc : JsValue)
    (before after : list (string * JsValue)) (result : list (string * list string))
    (rpcs_before rpcs_after : list JsValue) (urls : list string) :
  without_sequence config = true →
  without_url rpc = true →
  Update.filter_entries (before ++ (chainId, config) :: after) result
  = Update.filter_entries (before ++ after) result
  ∧ Update.collect_urls chainId (rpcs_before ++ rpc :: rpcs_after) urls
    = Update.collect_urls chainId (rpcs_before ++ rpcs_after) urls.
Proof.
  intros Hconfig Hrpc. split.
  - revert result. induction before as [|[k c] before IH]; intros result; simpl.
    + unfold without_sequence in Hconfig.
      destruct (Get config "rpcs") as [[| |b|n|s|rpcs|props]|]; simpl; done.
    + destruct (Get c "rpcs") as [[| |b|n|s|rpcs|props]|]; simpl; try done.
      destruct (Update.collect_urls k rpcs []); simpl; [apply IH | done].
  - revert urls. induction rpcs_before as [|r rpcs_before IH]; intros urls; simpl.
    + assert (Hsel : ∃ url, Update.select_url chainId rpc = Some url
                            ∧ ToBoolean url = false).
      { unfold without_url in Hrpc. unfold Update.select_url.
        destruct rpc as [| |b|n|s|l|props]; simpl; try done; eauto.
        destruct (lookup_property "url" props) as [v|] eqn:Hv; simpl.
        - apply negb_true_iff in Hrpc.
          destruct (chainId =? "1"); simpl; [|eauto].
          destruct (strict_equals_string _ _); eauto.
        - eauto. }
      destruct Hsel as (url & -> & Hfalsy). simpl.
      unfold Update.push_if_https. by rewrite Hfalsy.
    + destruct (Update.select_url chainId r) as [url|]; simpl; [|done].
      destruct (Update.push_if_https urls url); simpl; [apply IH | done].
Qed.

Lemma malformed_entries_skipped_witness :
  without_sequence (JString "soon") = true
  ∧ without_url (JObject [("tracking", JString "none")]) = true
  ∧ Update.filter_entries
      ([("1", JObject [("rpcs", JArray [])])] ++ ("5", JString "soon") :: Scenarios.recoverable) []
    = Update.filter_entries
        ([("1", JObject [("rpcs", JArray [])])] ++ Scenarios.recoverable) []
  ∧ Update.collect_urls "5"
      ([JString "https://w.example"] ++ JObject [("tracking", JString "none")]
         :: [JString "https://x.example"]) []
    = Update.collect_urls "5" ([JString "https://w.example"] ++ [JString "https://x.example"]) [].
Proof.
  split; [reflexivity|]. split; [reflexivity|].
  apply (malformed_entries_skipped "5" (JString "soon") (JObject [("tracking", JString "none")])).
  - reflexivity.
  - reflexivity.
Defined.

(** C6 as stated fails: a network whose value is [null], or a candidate
    whose [url] is the number 5, raises a [TypeError]; the run ends with
    exit status 1 and writes nothing, the well-formed network next to it
    included. *)
Lemma malformed_entry_aborts_run :
  Update.filter_stage Scenarios.null_network = None
  ∧ Update.main (returning Scenarios.null_network) (Scenarios.serving "")
    = Some (1%Z, Scenarios.earlier_files)
  ∧ Update.filter_stage Scenarios.numeric_url = None
  ∧ Update.main (returning Scenarios.numeric_url) (Scenarios.serving "")
    = Some (1%Z, Scenarios.earlier_files).
Proof. repeat split; vm_compute; reflexivity. Qed.

(** ** Numerals *)

Section Numerals.

Lemma digit_char_value d :
  (d < 10)%N → digit_value 10 (digit_char d) = Some d.
Proof.
  intros Hd.
  assert (H : Forall (λ d, digit_value 10 (digit_char d) = Some d)
                (map N.of_nat (seq 0 10))) by (repeat constructor).
  rewrite Forall_forall in H. apply H.
  apply list_elem_of_In, in_map_iff. exists (N.to_nat d). split; [lia|].
  apply in_seq. lia.
Qed.

(** A decimal digit is none of the characters that [Number] treats apart. *)
Lemma digit_is_plain c :
  is_digit c = true →
  is_white_space c = false
  ∧ Ascii.eqb c "-" = false ∧ Ascii.eqb c "+" = false ∧ Ascii.eqb c "I" = false
  ∧ Ascii.eqb c "x" = false ∧ Ascii.eqb c "X" = false
  ∧ Ascii.eqb c "o" = false ∧ Ascii.eqb c "O" = false
  ∧ Ascii.eqb c "b" = false ∧ Ascii.eqb c "B" = false.
Proof.
  destruct c as [[] [] [] [] [] [] [] []]; vm_compute; intros H;
    first [discriminate H | repeat split].
Qed.

Lemma digit_char_is_digit d : (d < 10)%N → is_digit (digit_char d) = true.
Proof.
  intros Hd. unfold is_digit. rewrite (digit_char_value d Hd).
  apply bool_decide_eq_true_2. eauto.
Qed.

Lemma digits_of_digits fuel n acc :
  forallb is_digit acc = true → forallb is_digit (digits_of fuel n acc) = true.
Proof.
  revert n acc. induction fuel as [|fuel IH]; intros n acc Hacc; simpl; [done|].
  assert (Hacc' : forallb is_digit (digit_char (n mod 10) :: acc) = true).
  { simpl. rewrite Hacc, digit_char_is_digit; [done|].
    apply N.mod_upper_bound. lia. }
  destruct (n <? 10)%N; [done | by apply IH].
Qed.

Lemma digits_of_nonempty fuel n acc : nonempty (digits_of (S fuel) n acc) = true.
Proof.
  revert n acc. induction fuel as [|fuel IH]; intros n acc.
  - simpl. by destruct (n <? 10)%N.
  - change (digits_of (S (S fuel)) n acc)
      with (if (n <? 10)%N then digit_char (n mod 10) :: acc
            else digits_of (S fuel) (n / 10) (digit_char (n mod 10) :: acc)).
    destruct (n <? 10)%N; [done | apply IH].
Qed.

(** Reading the numeral of [n] gives [n] back. *)
Lemma digits_value_digits_of fuel n acc :
  (n < 10 ^ N.of_nat fuel)%N →
  digits_value 10 0 (digits_of fuel n acc) = digits_value 10 n acc.
Proof.
  revert n acc. induction fuel as [|fuel IH]; intros n acc Hn.
  - simpl in *. by replace n with 0%N by lia.
  - simpl digits_of. destruct (N.ltb_spec n 10) as [Hlt|Hge].
    + simpl. rewrite N.mod_small by done.
      rewrite (digit_char_value n Hlt). simpl. done.
    + rewrite IH.
      * simpl. rewrite digit_char_value by (apply N.mod_upper_bound; lia). simpl.
        f_equal. rewrite (N.div_mod' n 10) at 3. lia.
      * rewrite Nat2N.inj_succ, N.pow_succ_r' in Hn.
        apply N.Div0.div_lt_upper_bound. lia.
Qed.

Lemma numeral_fuel n : (n < 10 ^ N.of_nat (S (N.to_nat (N.log2 n))))%N.
Proof.
  rewrite Nat2N.inj_succ, N2Nat.id.
  destruct (N.eq_dec n 0%N) as [->|Hpos]; [done|].
  destruct (N.log2_spec n) as [_ Hlt]; [lia|].
  eapply N.lt_le_trans; [exact Hlt|].
  apply N.pow_le_mono_l. lia.
Qed.

Lemma span_digits_all s :
  forallb is_digit s = true → span_digits s = (s, []).
Proof.
  induction s as [|c s IH]; simpl; [done|].
  intros [Hc Hs]%andb_true_iff. rewrite Hc, IH; done.
Qed.

Lemma trim_start_digits s : forallb is_digit s = true → trim_start s = s.
Proof.
  destruct s as [|c s]; simpl; [done|].
  intros [Hc _]%andb_true_iff.
  by destruct (digit_is_plain c Hc) as (-> & _).
Qed.

Lemma trim_digits s : forallb is_digit s = true → trim s = s.
Proof.
  intros Hs. unfold trim. rewrite (trim_start_digits s Hs).
  rewrite trim_start_digits; [apply rev_involutive|].
  apply forallb_forall. intros c Hc%in_rev.
  rewrite forallb_forall in Hs. by apply Hs.
Qed.

Lemma non_decimal_digits s : forallb is_digit s = true → non_decimal s = None.
Proof.
  destruct s as [|zero [|letter s]]; simpl; try done.
  intros (_ & (Hletter & _)%andb_true_iff)%andb_true_iff.
  destruct (digit_is_plain letter Hletter) as (_ & _ & _ & _ & -> & -> & -> & -> & -> & ->).
  by destruct (Ascii.eqb zero "0").
Qed.

Lemma Number_digits s n :
  forallb is_digit s = true →
  nonempty s = true →
  digits_value 10 0 s = Some n →
  (Z.of_N n <= max_exact)%Z →
  Number (string_of_list_ascii s) = Some (Int (Z.of_N n)).
Proof.
  intros Hs Hne Hvalue Hmax. unfold Number.
  rewrite list_ascii_of_string_of_list_ascii, (trim_digits s Hs).
  destruct s as [|c rest] eqn:Es; [done|]. rewrite <- Es in *.
  rewrite (non_decimal_digits s Hs).
  assert (Hc : is_digit c = true).
  { rewrite Es in Hs. simpl in Hs. by apply andb_true_iff in Hs as [? _]. }
  destruct (digit_is_plain c Hc) as (_ & -> & -> & HI & _). simpl.
  replace (string_of_list_ascii s =? "Infinity") with false.
  2:{ rewrite Es. simpl. by rewrite HI. }
  unfold unsigned_decimal. rewrite (span_digits_all s Hs), Hvalue.
  rewrite Es at 1. simpl. unfold signed.
  by destruct (Z.leb_spec (Z.of_N n) max_exact); [|lia].
Qed.

Lemma Number_decimal n :
  (Z.of_N n <= max_exact)%Z → Number (decimal n) = Some (Int (Z.of_N n)).
Proof.
  intros Hmax. unfold decimal. apply Number_digits; [| | |done].
  - by apply digits_of_digits.
  - apply digits_of_nonempty.
  - rewrite digits_value_digits_of by apply numeral_fuel. done.
Qed.

Lemma decimal_value n :
  digits_value 10 0 (list_ascii_of_string (decimal n)) = Some n.
Proof.
  unfold decimal. rewrite list_ascii_of_string_of_list_ascii.
  by rewrite digits_value_digits_of by apply numeral_fuel.
Qed.

Lemma decimal_digits n :
  forallb is_digit (list_ascii_of_string (decimal n)) = true
  ∧ nonempty (list_ascii_of_string (decimal n)) = true.
Proof.
  unfold decimal. rewrite list_ascii_of_string_of_list_ascii. split.
  - by apply digits_of_digits.
  - apply digits_of_nonempty.
Qed.

(** Below [2^53] the sum is the integer sum. *)
Lemma add_one_exact z :
  (- max_exact <= z < max_exact)%Z → add_one (Int z) = Some (Int (z + 1)).
Proof.
  intros Hz. unfold add_one.
  destruct (Z.eqb_spec z max_exact); [lia|].
  destruct (Z.leb_spec (- max_exact) z); [|lia].
  by destruct (Z.ltb_spec z max_exact); [|lia].
Qed.

(** The version step on a text that is read as the integer [n]. *)
Lemma update_version_integer text n :
  Number text = Some (Int (Z.of_N n)) →
  (n < 2 ^ 53)%N →
  Update.update_version (Holds text) = Some (decimal (n + 1)).
Proof.
  intros HNumber Hn. unfold Update.update_version, Update.read_version.
  assert (Hmax : (Z.of_N n < max_exact)%Z).
  { unfold max_exact. change (2 ^ 53)%Z with (Z.of_N (2 ^ 53)). lia. }
  rewrite HNumber. simpl.
  assert (Hcurrent : (if negb (Z.of_N n =? 0)%Z then Int (Z.of_N n) else Int 0)
                     = Int (Z.of_N n)).
  { destruct (Z.eqb_spec (Z.of_N n) 0) as [->|_]; done. }
  rewrite Hcurrent, add_one_exact by (unfold max_exact in *; lia). simpl.
  destruct (Z.ltb_spec (Z.of_N n + 1) 0); [lia|].
  replace (Z.abs_N (Z.of_N n + 1)) with (n + 1)%N by lia. reflexivity.
Qed.

End Numerals.

(** C8, amended: the version step reads the previous value as 0 when the
    counter file is absent, cannot be read, or holds a text that [Number]
    maps to [NaN], and then writes [1]; when the file holds a text that
    [Number] reads as an integer [n] from 0 to [2^53 - 1] (the plain decimal
    numeral of [n] is such a text) it writes the plain decimal numeral of
    [n + 1]: decimal digits only, denoting [n + 1].  So the first run,
    without a counter file, writes [1] and the run that follows it writes
    [2]. *)
Theorem version_counter_step (text numeral : string) (n : N) :
  Number text = Some NaN →
  Number numeral = Some (Int (Z.of_N n)) →
  (n < 2 ^ 53)%N →
  Update.update_version Absent = Some "1"
  ∧ Update.update_version Unreadable = Some "1"
  ∧ Update.update_version (Holds text) = Some "1"
  ∧ Update.update_version (Holds numeral) = Some (next_version n)
  ∧ Number (decimal n) = Some (Int (Z.of_N n))
  ∧ Update.update_version (Holds (decimal n)) = Some (next_version n)
  ∧ forallb is_digit (list_ascii_of_string (next_version n)) = true
  ∧ digits_value 10 0 (list_ascii_of_string (next_version n)) = Some (n + 1)%N
  ∧ ∃ fs1 fs2,
      Update.main (returning Scenarios.network_137)
        (Scenarios.with_files (Scenarios.serving "") Scenarios.fresh_files) = Some (0%Z, fs1)
      ∧ providers_version fs1 = Holds "1"
      ∧ Update.main (returning Scenarios.network_137)
          (Scenarios.with_files (Scenarios.serving "") fs1) = Some (0%Z, fs2)
      ∧ providers_version fs2 = Holds "2".
Proof.
  intros Hnan Hnumeral Hn.
  assert (Hdecimal : Number (decimal n) = Some (Int (Z.of_N n))).
  { apply Number_decimal. unfold max_exact.
    change (2 ^ 53)%Z with (Z.of_N (2 ^ 53)). lia. }
  split; [reflexivity|]. split; [reflexivity|].
  split; [unfold Update.update_version, Update.read_version; by rewrite Hnan|].
  split; [by apply update_version_integer|].
  split; [exact Hdecimal|].
  split; [by apply update_version_integer|].
  split; [apply decimal_digits|].
  split; [apply decimal_value|].
  eexists _, _. split; [vm_compute; reflexivity|].
  split; [reflexivity|]. split; [vm_compute; reflexivity | reflexivity].
Qed.

Lemma version_counter_step_witness :
  Number "not a number" = Some NaN
  ∧ Number " 0x29 " = Some (Int (Z.of_N 41))
  ∧ (41 < 2 ^ 53)%N
  ∧ Update.update_version (Holds "not a number") = Some "1"
  ∧ Update.update_version (Holds " 0x29 ") = Some (next_version 41)
  ∧ Update.update_version (Holds (decimal 41)) = Some (next_version 41).
Proof.
  assert (H1 : Number "not a number" = Some NaN) by reflexivity.
  assert (H2 : Number " 0x29 " = Some (Int (Z.of_N 41))) by reflexivity.
  assert (H3 : (41 < 2 ^ 53)%N) by reflexivity.
  split; [exact H1|]. split; [exact H2|]. split; [exact H3|].
  destruct (version_counter_step "not a number" " 0x29 " 41 H1 H2 H3)
    as (_ & _ & R1 & R2 & _ & R3 & _).
  split; [exact R1|]. split; [exact R2 | exact R3].
Defined.

(** C8 as stated fails: the value written back is not always the previous
    value plus 1, nor always a plain integer.  A file holding the integer
    [2^53] is read as that integer and [2^53] is written back, the sum
    being rounded to it; a file holding [Infinity] is read as a number,
    not as 0, and [Infinity] is written back. *)
Lemma version_counter_stalls :
  Number "9007199254740992" = Some (Int (2 ^ 53))
  ∧ Update.update_version (Holds "9007199254740992") = Some "9007199254740992"
  ∧ Number "Infinity" = Some (Infinity false)
  ∧ Update.update_version (Holds "Infinity") = Some "Infinity".
Proof. repeat split; vm_compute; reflexivity. Qed.

(** ** Stripping the module syntax *)

Section Stripping.
Context {R : Type}.
Implicit Types (k : option ascii → list ascii → option R) (s w : list ascii).

Lemma iterate_consuming m greedy k fuel prev s x :
  consuming m →
  iterate m greedy k fuel prev s = Some x →
  ∃ w prev' s', s = w ++ s' ∧ k prev' s' = Some x.
Proof.
  intros Hm. revert prev s. induction fuel as [|fuel IH]; intros prev s; simpl.
  - intros H. by exists [], prev, s.
  - assert (Hagain :
      m prev s (λ prev' s', if (List.length s' <? List.length s)%nat
                            then iterate m greedy k fuel prev' s' else None) = Some x →
      ∃ w prev' s', s = w ++ s' ∧ k prev' s' = Some x).
    { intros (w1 & p1 & s1 & -> & H)%Hm.
      destruct (List.length s1 <? List.length (w1 ++ s1))%nat; [|done].
      destruct (IH _ _ H) as (w2 & p2 & s2 & -> & Hk).
      exists (w1 ++ w2), p2, s2. by rewrite <- app_assoc. }
    assert (Hstop : k prev s = Some x → ∃ w prev' s', s = w ++ s' ∧ k prev' s' = Some x).
    { intros H. by exists [], prev, s. }
    destruct greedy.
    + destruct (m prev s _) as [y|] eqn:E; [intros [= ->]; by apply Hagain | apply Hstop].
    + destruct (k prev s) as [y|] eqn:E; [intros [= ->]; by apply Hstop | apply Hagain].
Qed.

Lemma rmatch_consuming r : consuming (@rmatch R r).
Proof.
  induction r as [|p|r1 IH1 r2 IH2|greedy r1 IH1|r1 IH1| |]; intros prev s k x; simpl.
  - intros H. by exists [], prev, s.
  - destruct s as [|c s']; [done|]. destruct (p c); [|done].
    intros H. by exists [c], (Some c), s'.
  - intros (w1 & p1 & s1 & -> & (w2 & p2 & s2 & -> & Hk)%IH2)%IH1.
    exists (w1 ++ w2), p2, s2. by rewrite <- app_assoc.
  - by apply iterate_consuming.
  - destruct (rmatch r1 prev s _) as [y|] eqn:E.
    + intros [= ->]. apply IH1 in E as (w1 & p1 & s1 & -> & H).
      destruct (List.length s1 <? List.length (w1 ++ s1))%nat; [|done].
      by exists w1, p1, s1.
    + intros H. by exists [], prev, s.
  - destruct (at_line_start prev); [|done]. intros H. by exists [], prev, s.
  - destruct (at_line_end s); [|done]. intros H. by exists [], prev, s.
Qed.

Lemma rmatch_Cat r1 r2 prev s k :
  rmatch (Cat r1 r2) prev s k = rmatch r1 prev s (λ prev' s', rmatch r2 prev' s' k).
Proof. reflexivity. Qed.

(** A literal consumes itself. *)
Lemma rmatch_Literal L prev s k x :
  rmatch (Literal L) prev s k = Some x →
  ∃ prev' s', s = list_ascii_of_string L ++ s' ∧ k prev' s' = Some x.
Proof.
  revert prev s. induction L as [|c L IH]; intros prev s; simpl.
  - intros H. by exists prev, s.
  - destruct s as [|c' s']; [done|]. unfold Char.
    destruct (Ascii.eqb_spec c c') as [<-|_]; [|done].
    intros (p & s'' & -> & Hk)%IH. by exists p, s''.
Qed.

(** Forward rules: how a pattern gets through a text that fits it. *)
Lemma accepts_Class (p : ascii → bool) c s k (Q : R → Prop) :
  p c = true →
  accepts k s Q →
  accepts (λ prev s', rmatch (Class p) prev s' k) (c :: s) Q.
Proof. intros Hp Hk prev. simpl. rewrite Hp. apply Hk. Qed.

Lemma accepts_Literal L s k (Q : R → Prop) :
  accepts k s Q →
  accepts (λ prev s', rmatch (Literal L) prev s' k) (list_ascii_of_string L ++ s) Q.
Proof.
  intros Hk. induction L as [|c L IH]; [exact Hk|].
  intros prev. cbn [Literal list_ascii_of_string app]. rewrite rmatch_Cat.
  apply (accepts_Class (Ascii.eqb c)); [apply Ascii.eqb_refl | exact IH].
Qed.

(** A greedy run over a character class takes every character of the
    class that is ahead, when the continuation succeeds behind them. *)
Lemma accepts_Star (p : ascii → bool) w s k (Q : R → Prop) :
  forallb p w = true →
  (match s with [] => true | c :: _ => negb (p c) end) = true →
  accepts k s Q →
  accepts (λ prev s', rmatch (Star true (Class p)) prev s' k) (w ++ s) Q.
Proof.
  intros Hw Hs Hk prev. cbn [rmatch].
  assert (H : ∀ fuel prev, (List.length w ≤ fuel)%nat →
                ∃ x, iterate (rmatch (Class p)) true k fuel prev (w ++ s) = Some x ∧ Q x).
  { clear prev. induction w as [|c w IH]; intros fuel prev Hfuel.
    - destruct (Hk prev) as (x & Hx & HQ). exists x. split; [|done].
      destruct fuel as [|fuel]; simpl; [done|].
      destruct s as [|c s']; [done|].
      apply negb_true_iff in Hs. by rewrite Hs.
    - simpl in Hw. apply andb_true_iff in Hw as [Hc Hw].
      destruct fuel as [|fuel]; simpl in Hfuel; [lia|].
      destruct (IH Hw fuel (Some c)) as (x & Hx & HQ); [lia|].
      exists x. split; [|done].
      cbn [iterate rmatch app]. rewrite Hc.
      destruct (Nat.ltb_spec (List.length (w ++ s)) (List.length (c :: w ++ s)));
        [|simpl in *; lia].
      cbn [rmatch] in Hx. by rewrite Hx. }
  apply H. rewrite length_app. lia.
Qed.

Lemma accepts_Cat r1 r2 s k (Q : R → Prop) :
  accepts (λ prev s', rmatch r1 prev s' (λ prev' s'', rmatch r2 prev' s'' k)) s Q →
  accepts (λ prev s', rmatch (Cat r1 r2) prev s' k) s Q.
Proof. intros H. exact H. Qed.

End Stripping.

Section Occurrences.
Implicit Types (L s w : list ascii).

Lemma starts_with_app L s : starts_with L (L ++ s) = true.
Proof. induction L as [|c L IH]; simpl; [done|]. by rewrite Ascii.eqb_refl. Qed.

Lemma occurs_in_starts L s : starts_with L s = true → occurs_in L s = true.
Proof. destruct s; simpl; by intros ->. Qed.

Lemma occurs_in_app L w s : occurs_in L (w ++ L ++ s) = true.
Proof.
  induction w as [|c w IH].
  - rewrite app_nil_l. apply occurs_in_starts, starts_with_app.
  - simpl. rewrite IH. apply orb_true_r.
Qed.

(** Where no match can start without [L] ahead, a text free of [L] is left
    as it is. *)
Lemma delete_matches_free r L fuel prev s :
  (∀ prev' s', is_Some (match_here r prev' s') → occurs_in L s' = true) →
  occurs_in L s = false →
  delete_matches fuel r prev s = s.
Proof.
  intros Hr. revert prev s. induction fuel as [|fuel IH]; intros prev s Hfree; simpl; [done|].
  destruct (match_here r prev s) as [[prev' s']|] eqn:E.
  { rewrite (Hr prev s) in Hfree; [done | by rewrite E]. }
  destruct s as [|c rest]; [done|]. f_equal. apply IH.
  simpl in Hfree. by apply orb_false_iff in Hfree as [_ ?].
Qed.

Lemma replace_all_free r (needle : string) text :
  (∀ prev' s', is_Some (match_here r prev' s') →
               occurs_in (list_ascii_of_string needle) s' = true) →
  occurs needle text = false →
  replace_all r text = text.
Proof.
  intros Hr Hfree. unfold replace_all.
  rewrite (delete_matches_free r (list_ascii_of_string needle)) by done.
  apply string_of_list_ascii_of_string.
Qed.

(** What each of the four patterns needs ahead to match. *)
Lemma import_statement_needs prev s :
  is_Some (match_here import_statement prev s) →
  occurs_in (list_ascii_of_string "import") s = true.
Proof.
  intros [x H]. unfold match_here, import_statement in H.
  cbn [Sequence rmatch] in H. destruct (at_line_start prev); [|done].
  apply (rmatch_Literal "import") in H as (p & s' & -> & _).
  apply (occurs_in_app _ []).
Qed.


Lemma export_keyword_needs prev s :
  is_Some (match_here export_keyword prev s) →
  occurs_in (list_ascii_of_string "export") s = true.
Proof.
  intros [x H]. unfold match_here, export_keyword in H.
  cbn [Sequence rmatch] in H. destruct (at_line_start prev); [|done].
  apply (rmatch_Literal "export") in H as (p & s' & -> & _).
  apply (occurs_in_app _ []).
Qed.

Lemma mergeDeep_call_needs prev s :
  is_Some (match_here mergeDeep_call prev s) →
  occurs_in (list_ascii_of_string "allExtraRpcs") s = true.
Proof.
  intros [x H]. unfold match_here, mergeDeep_call in H.
  cbn [Sequence] in H. rewrite !rmatch_Cat in H.
  apply (rmatch_Literal "const") in H as (p1 & s1 & -> & H).
  rewrite rmatch_Cat in H.
  apply (rmatch_consuming (Plus Space)) in H as (w & p2 & s2 & -> & H).
  rewrite rmatch_Cat in H.
  apply (rmatch_Literal "allExtraRpcs") in H as (p3 & s3 & -> & _).
  rewrite (app_assoc _ w). apply occurs_in_app.
Qed.

Lemma list_ascii_of_string_app (s1 s2 : string) :
  list_ascii_of_string (s1 ++ s2) = list_ascii_of_string s1 ++ list_ascii_of_string s2.
Proof. induction s1 as [|c s1 IH]; simpl; [done | by rewrite IH]. Qed.


Lemma delete_matches_S fuel r prev s :
  delete_matches (S fuel) r prev s
  = match match_here r prev s with
    | Some (prev', s') =>
        if (List.length s' <? List.length s)%nat then delete_matches fuel r prev' s'
        else match s with
             | [] => []
             | c :: rest => c :: delete_matches fuel r (Some c) rest
             end
    | None => match s with
              | [] => []
              | c :: rest => c :: delete_matches fuel r (Some c) rest
              end
    end.
Proof. reflexivity. Qed.

End Occurrences.


(** ** The filter, network by network *)

Section Eligible.
Implicit Types (rpc url : JsValue) (rpcs : list JsValue) (urls : list string).

Lemma eligible_urls_other chainId rpcs :
  chainId ≠ "1" → eligible_urls chainId rpcs = https_subset rpcs.
Proof.
  intros Hne%String.eqb_neq. unfold eligible_urls, https_subset, eligible_url.
  by rewrite Hne.
Qed.

Lemma eligible_urls_cons chainId rpc rpcs :
  eligible_urls chainId (rpc :: rpcs)
  = eligible_urls chainId [rpc] ++ eligible_urls chainId rpcs.
Proof.
  unfold eligible_urls. simpl.
  destruct (eligible_url chainId rpc); simpl; [|done].
  rewrite !filter_cons, filter_nil. by destruct (decide _).
Qed.

(** What one candidate adds to [urls] on network ["1"]. *)
Lemma primary_step rpc url urls urls' :
  Update.select_url "1" rpc = Some url →
  Update.push_if_https urls url = Some urls' →
  urls' = urls ++ eligible_urls "1" [rpc].
Proof.
  intros Hsel Hpush.
  unfold Update.select_url in Hsel. change ("1" =? "1") with true in Hsel.
  unfold eligible_urls, eligible_url, Update.push_if_https in *.
  change ("1" =? "1") with true. simpl.
  destruct rpc as [| |b|n|s|l|props]; repeat (simpl in *; simplify_eq);
    try (by rewrite filter_nil, app_nil_r).
  - destruct (negb (s =? "")) eqn:Hs; simplify_eq.
    + rewrite filter_cons. destruct (startsWith s "https"); simpl; filter_done.
    + apply negb_false_iff, String.eqb_eq in Hs. subst s. filter_done.
  - destruct (lookup_property "url" props) as [v|] eqn:Hurl; simpl in *.
    + rewrite ?bool_decide_eq_true_2 in Hsel by eauto.
      destruct (lookup_property "tracking" props) as [[| |b|n|t|l|props']|];
        simpl in *; try (injection Hsel as <-; injection Hpush as <-; filter_done).
      destruct (t =? "none"); simpl in *;
        [|injection Hsel as <-; injection Hpush as <-; filter_done].
      injection Hsel as <-.
      destruct (ToBoolean v) eqn:Hv.
      * destruct v; simplify_eq. simpl.
        rewrite filter_cons. destruct (startsWith s "https"); simpl; filter_done.
      * injection Hpush as <-. destruct v; simpl in *; try filter_done.
        apply negb_false_iff, String.eqb_eq in Hv. subst s. filter_done.
    + rewrite ?bool_decide_eq_false_2 in Hsel by (intros [? ?]; done).
      injection Hsel as <-. simpl in Hpush. injection Hpush as <-.
      destruct (lookup_property "tracking" props) as [[| |b|n|t|l|props']|];
        try filter_done.
      destruct (t =? "none"); filter_done.
Qed.

(** Whatever the network, the filter appends the eligible URLs of the
    candidates, when it does not throw. *)
Lemma collect_urls_eligible chainId rpcs urls urls' :
  Update.collect_urls chainId rpcs urls = Some urls' →
  urls' = urls ++ eligible_urls chainId rpcs.
Proof.
  destruct (String.eqb_spec chainId "1") as [->|Hne].
  - revert urls. induction rpcs as [|rpc rpcs IH]; intros urls; simpl.
    + intros [= <-]. unfold eligible_urls. simpl. by rewrite filter_nil, app_nil_r.
    + destruct (Update.select_url "1" rpc) as [url|] eqn:Hsel; simpl; [|done].
      destruct (Update.push_if_https urls url) as [urls1|] eqn:Hpush; simpl; [|done].
      intros H. apply IH in H. subst urls'.
      rewrite (primary_step _ _ _ _ Hsel Hpush).
      by rewrite (eligible_urls_cons "1" rpc rpcs), <- app_assoc.
  - intros H. rewrite eligible_urls_other by done.
    exact (collect_urls_https chainId rpcs urls urls' Hne H).
Qed.

(** A well-typed candidate never makes the filter throw. *)
Lemma collect_urls_well_typed chainId rpcs urls :
  forallb rpc_well_typed rpcs = true →
  Update.collect_urls chainId rpcs urls = Some (urls ++ eligible_urls chainId rpcs).
Proof.
  intros Htyped.
  assert (H : is_Some (Update.collect_urls chainId rpcs urls)).
  { revert urls. induction rpcs as [|rpc rpcs IH]; intros urls; simpl; [eauto|].
    simpl in Htyped. apply andb_true_iff in Htyped as [Hrpc Hrpcs].
    assert (Hsel : ∃ url, Update.select_url chainId rpc = Some url
                          ∧ (url = JNull ∨ ∃ s, url = JString s)).
    { unfold rpc_well_typed in Hrpc. unfold Update.select_url.
      destruct rpc as [| |b|n|s|l|props]; try done; [eauto|]. simpl.
      destruct (lookup_property "url" props) as [[| |b|n|s|l|props']|] eqn:Hurl;
        try done.
      rewrite ?bool_decide_eq_true_2 by eauto. simpl.
      destruct (chainId =? "1"); simpl; [|eauto].
      destruct (strict_equals_string _ _); eauto. }
    destruct Hsel as (url & -> & Hurl). simpl.
    assert (Hpush : is_Some (Update.push_if_https urls url)).
    { unfold Update.push_if_https.
      destruct Hurl as [->|[s ->]]; simpl; [eauto|]. destruct (negb _); eauto. }
    destruct Hpush as [urls1 ->]. simpl. by apply IH. }
  destruct H as [urls' H]. rewrite H. f_equal. by apply collect_urls_eligible.
Qed.
End Eligible.

Section Mappings.
Context {A : Type}.
Implicit Types (o : list (string * A)) (key : string) (v : A).

Lemma set_property_fresh o key v :
  key ∉ o.*1 → set_property o key v = o ++ [(key, v)].
Proof.
  induction o as [|[k v'] o IH]; csimpl; [done|].
  rewrite not_elem_of_cons. intros [Hne Hnotin].
  destruct (String.eqb_spec k key); [congruence|]. by rewrite IH.
Qed.
End Mappings.

Section WholeDocument.
Implicit Types (entries : list (string * JsValue)) (result : list (string * list string)).

Lemma config_well_typed_rpcs config :
  config_well_typed config = true →
  Get config "rpcs" = Some (JArray (rpcs_of config))
  ∧ forallb rpc_well_typed (rpcs_of config) = true.
Proof.
  unfold config_well_typed, rpcs_of, Get.
  destruct config as [| |b|n|s|l|props]; try done.
  destruct (lookup_property "rpcs" props) as [[| |b|n|s|rpcs|props']|]; try done.
Qed.

Lemma NoDup_app_cons_move (acc : list string) k (rest : list string) :
  NoDup (acc ++ k :: rest) → (k ∉ acc) ∧ NoDup ((acc ++ [k]) ++ rest).
Proof.
  intros H. split.
  - apply NoDup_app in H as (_ & Hdisjoint & _). intros Hin.
    apply (Hdisjoint k Hin). by left.
  - by rewrite <- app_assoc.
Qed.

(** On a well-typed document the filter builds the mapping network by
    network, behind what the mapping already holds. *)
Lemma filter_entries_well_typed entries result :
  document_well_typed entries = true →
  NoDup (result.*1 ++ entries.*1) →
  Update.filter_entries entries result = Some (result ++ filtered_mapping entries).
Proof.
  revert result. induction entries as [|[k config] entries IH]; intros result; csimpl.
  - intros _ _. by rewrite app_nil_r.
  - intros [Hconfig Hrest]%andb_true_iff Hnodup. simpl in Hconfig.
    destruct (config_well_typed_rpcs config Hconfig) as [Hget Hrpcs].
    rewrite Hget. simpl. rewrite (collect_urls_well_typed k _ [] Hrpcs). simpl.
    apply NoDup_app_cons_move in Hnodup as [Hfresh Hnodup].
    rewrite (set_property_fresh result k _ Hfresh).
    rewrite IH; [by rewrite <- app_assoc | done |].
    by rewrite fmap_app.
Qed.

(** The validation stage maps the entries behind what it already holds. *)
Lemma validate_entries_fresh probe result validated :
  NoDup (validated.*1 ++ result.*1) →
  Update.validate_entries probe result validated
  = Some (validated ++ validated_mapping probe result).
Proof.
  revert validated. induction result as [|[k urls] result IH]; intros validated; csimpl.
  - intros _. by rewrite app_nil_r.
  - intros Hnodup. apply NoDup_app_cons_move in Hnodup as [Hfresh Hnodup].
    destruct (Nat.eqb_spec (List.length urls) 0) as [Hlen|Hlen].
    + rewrite (set_property_fresh validated k _ Hfresh).
      rewrite IH by (by rewrite fmap_app). rewrite <- app_assoc.
      by destruct urls.
    + rewrite checkRpcUrls_passed by lia. simpl.
      rewrite (set_property_fresh validated k _ Hfresh).
      rewrite IH by (by rewrite fmap_app). by rewrite <- app_assoc.
Qed.

Lemma document_well_typed_listed entries :
  document_well_typed entries = true →
  document_well_typed (EnumerableOwnProperties entries) = true.
Proof.
  unfold document_well_typed. rewrite !forallb_forall. intros H entry Hin.
  apply H. eapply Permutation_in; [|exact Hin].
  apply EnumerableOwnProperties_Permutation.
Qed.

Lemma filtered_mapping_keys entries : (filtered_mapping entries).*1 = entries.*1.
Proof. induction entries as [|[k c] entries IH]; csimpl; [done | by rewrite IH]. Qed.

Lemma filter_stage_NoDup extraRpcs result :
  Update.filter_stage extraRpcs = Some result → NoDup result.*1.
Proof.
  unfold Update.filter_stage.
  destruct (Object_entries extraRpcs) as [entries|]; simpl; [|done].
  apply filter_entries_NoDup. constructor.
Qed.
End WholeDocument.

(** ** More properties of the run *)

(** X1: on network ["1"] the output is the sequence of the candidates that
    are bare strings, or objects whose [tracking] is the string [none],
    restricted to the URLs that begin with [https] and whose probe
    succeeded, in the candidates' order. *)
Theorem primary_network_output (Function_call : Engine) (w : World) (fs : Files)
    (urls : list string) :
  Update.main Function_call w = Some (0%Z, fs) →
  output_urls fs "1" = Some urls →
  ∃ extraRpcs rpcs,
    extracted Function_call w extraRpcs
    ∧ candidates_of extraRpcs "1" rpcs
    ∧ urls = passed (probe w "1")
               (filter (λ u, Is_true (startsWith u "https")) (omap primary_url rpcs)).
Proof.
  intros Hmain Hout.
  destruct (output_entry_origin _ _ _ _ _ Hmain Hout)
    as (extraRpcs & rpcs & eligible & Hex & Hcand & Hcollect & ->).
  exists extraRpcs, rpcs. repeat split; try done.
  by rewrite (collect_urls_eligible _ _ _ _ Hcollect).
Qed.

Lemma primary_network_output_witness :
  let fs := {| rpc_providers_json := Some [("1", ["https://a.example"; "https://b.example"])];
               providers_version := Holds "8" |} in
  let w := Scenarios.serving "" in
  Update.main (returning Scenarios.network_1) w = Some (0%Z, fs)
  ∧ output_urls fs "1" = Some ["https://a.example"; "https://b.example"]
  ∧ ∃ extraRpcs rpcs,
      extracted (returning Scenarios.network_1) w extraRpcs
      ∧ candidates_of extraRpcs "1" rpcs
      ∧ ["https://a.example"; "https://b.example"]
        = passed (probe w "1")
            (filter (λ u, Is_true (startsWith u "https")) (omap primary_url rpcs)).
Proof.
  intros fs w.
  assert (H1 : Update.main (returning Scenarios.network_1) w = Some (0%Z, fs))
    by (vm_compute; reflexivity).
  assert (H2 : output_urls fs "1" = Some ["https://a.example"; "https://b.example"])
    by reflexivity.
  split; [exact H1|]. split; [exact H2|].
  exact (primary_network_output _ _ _ _ H1 H2).
Defined.

(** X2: when the document is well typed (every network holds an object
    whose [rpcs] is an array of strings and of objects with a string
    [url]) and its network ids are distinct, the run can end in the handler
    through a failed write only.  The catalog holds, network by network in
    the order in which the document's properties are listed (array
    indices first, ascending), the eligible URLs whose probe succeeded.
    When both writes go through the run exits with status 0; when the
    catalog write fails it exits with status 1 and no file is changed;
    when the version write fails it exits with status 1, the catalog
    being replaced already. *)
Theorem well_typed_run (disk : Disk) (Function_call : Engine) (w : World) (status : nat)
    (content version : string) (properties : list (string * JsValue)) (fs : Files) :
  upstream w = Responded status (Some content) →
  ok status = true →
  Function_call (Update.function_body content) (files w) = (Some (JObject properties), fs) →
  document_well_typed properties = true →
  NoDup properties.*1 →
  Update.update_version (providers_version fs) = Some version →
  let catalog :=
    validated_mapping (probe w) (filtered_mapping (EnumerableOwnProperties properties)) in
  Update.main_on disk Function_call w
  = Some (if writes_rpc_providers_json disk
          then if writes_providers_version disk
               then (0%Z, {| rpc_providers_json := Some catalog;
                             providers_version := Holds version |})
               else (1%Z, {| rpc_providers_json := Some catalog;
                             providers_version := providers_version fs |})
          else (1%Z, fs)).
Proof.
  intros Hup Hok Hcall Htyped Hnodup Hversion catalog. subst catalog.
  rewrite main_on_listing, Hup, Hok, Hcall. simpl.
  unfold Update.filter_stage. simpl.
  rewrite (filter_entries_well_typed (EnumerableOwnProperties properties) []);
    [|by apply document_well_typed_listed|by apply EnumerableOwnProperties_NoDup].
  simpl. unfold Update.validate_stage.
  rewrite (validate_entries_fresh (probe w) _ []).
  2:{ simpl. rewrite filtered_mapping_keys. by apply EnumerableOwnProperties_NoDup. }
  simpl. rewrite Hversion. simpl.
  by destruct (writes_rpc_providers_json disk), (writes_providers_version disk).
Qed.

Lemma well_typed_run_witness :
  let disk := {| writes_rpc_providers_json := true; writes_providers_version := false |} in
  let w := Scenarios.serving "" in
  let properties :=
    [("137", JObject [("rpcs", JArray [JString "http://y.example"])]);
     ("1", JObject [("rpcs", JArray
        [ JString "https://a.example";
          JObject [("url", JString "https://c.example"); ("tracking", JString "yes")] ])])] in
  upstream w = Responded 200 (Some "")
  ∧ ok 200 = true
  ∧ returning (JObject properties) (Update.function_body "") (files w)
    = (Some (JObject properties), Scenarios.earlier_files)
  ∧ document_well_typed properties = true
  ∧ NoDup properties.*1
  ∧ Update.update_version (providers_version Scenarios.earlier_files) = Some "8"
  ∧ Update.main_on disk (returning (JObject properties)) w
    = Some (1%Z, {| rpc_providers_json := Some [("1", ["https://a.example"]); ("137", [])];
                    providers_version := Holds "7" |}).
Proof.
  intros disk w properties.
  assert (H1 : upstream w = Responded 200 (Some "")) by reflexivity.
  assert (H2 : ok 200 = true) by reflexivity.
  assert (H3 : returning (JObject properties) (Update.function_body "") (files w)
               = (Some (JObject properties), Scenarios.earlier_files)) by reflexivity.
  assert (H4 : document_well_typed properties = true) by reflexivity.
  assert (H5 : NoDup properties.*1).
  { repeat constructor; [|apply not_elem_of_nil].
    intros Hin%list_elem_of_singleton. discriminate Hin. }
  assert (H6 : Update.update_version (providers_version Scenarios.earlier_files) = Some "8")
    by reflexivity.
  split; [exact H1|]. split; [exact H2|]. split; [exact H3|].
  split; [exact H4|]. split; [exact H5|]. split; [exact H6|].
  exact (well_typed_run disk _ w 200 "" "8" properties _ H1 H2 H3 H4 H5 H6).
Defined.

(** X3: the catalog a successful run writes mirrors the filtered mapping:
    one entry per network, in the same order, holding the URLs of that
    network whose probe succeeded; a network without eligible URL stays in
    the catalog with an empty list. *)
Theorem catalog_mirrors_filtered_mapping (Function_call : Engine) (w : World) (fs : Files) :
  Update.main Function_call w = Some (0%Z, fs) →
  ∃ extraRpcs result,
    extracted Function_call w extraRpcs
    ∧ Update.filter_stage extraRpcs = Some result
    ∧ rpc_providers_json fs = Some (validated_mapping (probe w) result).
Proof.
  intros Hmain.
  destruct (main_success _ _ _ Hmain)
    as (status & content & extraRpcs & fs1 & result & validated & version
        & Hup & Hcall & Hfilter & Hvalidate & _ & ->).
  exists extraRpcs, result. split; [by exists status, content, fs1|]. split; [done|].
  simpl. unfold Update.validate_stage in Hvalidate.
  rewrite (validate_entries_fresh (probe w) result []) in Hvalidate.
  - by injection Hvalidate as <-.
  - simpl. by apply (filter_stage_NoDup extraRpcs).
Qed.

Lemma catalog_mirrors_filtered_mapping_witness :
  let fs := {| rpc_providers_json := Some [("56", []); ("137", ["https://x.example"])];
               providers_version := Holds "8" |} in
  Update.main (returning Cases.two_networks) Cases.flaky = Some (0%Z, fs)
  ∧ ∃ extraRpcs result,
      extracted (returning Cases.two_networks) Cases.flaky extraRpcs
      ∧ Update.filter_stage extraRpcs = Some result
      ∧ rpc_providers_json fs = Some (validated_mapping (probe Cases.flaky) result).
Proof.
  intros fs.
  assert (H : Update.main (returning Cases.two_networks) Cases.flaky = Some (0%Z, fs))
    by (vm_compute; reflexivity).
  split; [exact H|].
  exact (catalog_mirrors_filtered_mapping _ _ _ H).
Defined.

Section Chunks.
Implicit Types (fetch : nat → string → FetchOutcome JsValue) (urls : list string).

(** With a positive width every chunk is non-empty and no longer than the
    width. *)
Lemma make_chunks_bounded urls concurrency fuel i chunks :
  0 < concurrency →
  (List.length urls - i ≤ fuel)%nat →
  ∃ more, Update.make_chunks fuel urls concurrency i chunks = Some (chunks ++ more)
          ∧ concat more = drop i urls
          ∧ Forall (λ chunk, 0 < List.length chunk ∧ (List.length chunk ≤ concurrency)%nat)
              more.
Proof.
  intros Hpos. revert i chunks.
  induction fuel as [|fuel IH]; intros i chunks Hfuel; simpl.
  - destruct (Nat.ltb_spec i (List.length urls)); [lia|].
    exists []. rewrite app_nil_r, drop_ge by done. done.
  - destruct (Nat.ltb_spec i (List.length urls)).
    + destruct (IH (i + concurrency) (chunks ++ [Update.slice urls i (i + concurrency)]))
        as (more & -> & Hmore & Hall); [lia|].
      exists (Update.slice urls i (i + concurrency) :: more). split; [|split].
      * by rewrite <- app_assoc.
      * simpl. rewrite Hmore. unfold Update.slice.
        replace (i + concurrency - i) with concurrency by lia.
        by rewrite <- drop_drop, take_drop.
      * constructor; [|done]. unfold Update.slice.
        rewrite length_take, length_drop. lia.
    + exists []. rewrite app_nil_r, drop_ge by done. done.
Qed.

(** With width 0 the index never moves: no amount of fuel ends the loop. *)
Lemma make_chunks_stuck urls fuel i chunks :
  (i < List.length urls)%nat → Update.make_chunks fuel urls 0 i chunks = None.
Proof.
  intros Hi. revert chunks. induction fuel as [|fuel IH]; intros chunks; simpl.
  - by destruct (Nat.ltb_spec i (List.length urls)); [|lia].
  - destruct (Nat.ltb_spec i (List.length urls)); [|lia].
    rewrite Nat.add_0_r. apply IH.
Qed.

Lemma passed_from_none fetch n urls :
  (∀ n u, probe_succeeds (fetch n u) = false) → passed_from fetch n urls = [].
Proof.
  intros Hdead. revert n. induction urls as [|u urls IH]; intros n; simpl; [done|].
  by rewrite Hdead, IH.
Qed.

Lemma passed_from_all fetch n urls :
  (∀ n u, probe_succeeds (fetch n u) = true) → passed_from fetch n urls = urls.
Proof.
  intros Halive. revert n. induction urls as [|u urls IH]; intros n; simpl; [done|].
  by rewrite Halive, IH.
Qed.

Lemma validated_mapping_none probe result :
  (∀ k n u, probe_succeeds (probe k n u) = false) →
  validated_mapping probe result = map (λ entry, (entry.1, [])) result.
Proof.
  intros Hdead. unfold validated_mapping. apply map_ext. intros [k urls]. simpl.
  f_equal. by apply passed_from_none.
Qed.

Lemma validated_mapping_all probe result :
  (∀ k n u, probe_succeeds (probe k n u) = true) →
  validated_mapping probe result = result.
Proof.
  intros Halive. unfold validated_mapping.
  rewrite <- (map_id result) at 2. apply map_ext. intros [k urls]. simpl.
  f_equal. by apply passed_from_all.
Qed.

Lemma validated_mapping_keys probe result :
  (validated_mapping probe result).*1 = result.*1.
Proof. induction result as [|[k urls] result IH]; csimpl; [done | by rewrite IH]. Qed.
End Chunks.

(** X4: [checkRpcUrls] returns exactly the URLs whose probe succeeded, in
    the order of its input and with repetitions kept; the width of the
    batches (10 by default, 30 in [main]) has no influence on the result
    as long as it is positive. *)
Theorem checkRpcUrls_width_irrelevant (fetch : nat → string → FetchOutcome JsValue)
    (urls : list string) (width width' : nat) :
  0 < width →
  0 < width' →
  Update.checkRpcUrls fetch urls width = Some (passed fetch urls)
  ∧ Update.checkRpcUrls fetch urls width' = Update.checkRpcUrls fetch urls width.
Proof.
  intros Hwidth Hwidth'. by rewrite !checkRpcUrls_passed.
Qed.

Lemma checkRpcUrls_width_irrelevant_witness :
  0 < 10 ∧ 0 < 30
  ∧ Update.checkRpcUrls Scenarios.every_second ["a"; "b"; "a"; "c"; "a"] 10
    = Some (passed Scenarios.every_second ["a"; "b"; "a"; "c"; "a"])
  ∧ Update.checkRpcUrls Scenarios.every_second ["a"; "b"; "a"; "c"; "a"] 30
    = Update.checkRpcUrls Scenarios.every_second ["a"; "b"; "a"; "c"; "a"] 10.
Proof.
  assert (H1 : 0 < 10) by lia. assert (H2 : 0 < 30) by lia.
  split; [exact H1|]. split; [exact H2|].
  exact (checkRpcUrls_width_irrelevant Scenarios.every_second
           ["a"; "b"; "a"; "c"; "a"] 10 30 H1 H2).
Defined.

(** X5: with a positive width the batches that [checkRpcUrls] builds cut
    its input into consecutive pieces: put end to end they are the input,
    none is empty and none holds more URLs than the width, so that no more
    than [concurrency] requests are in flight at a time. *)
Theorem batches_are_bounded (urls : list string) (concurrency : nat) :
  0 < concurrency →
  ∃ chunks,
    Update.make_chunks (List.length urls) urls concurrency 0 [] = Some chunks
    ∧ concat chunks = urls
    ∧ Forall (λ chunk, 0 < List.length chunk ∧ (List.length chunk ≤ concurrency)%nat) chunks.
Proof.
  intros Hpos.
  destruct (make_chunks_bounded urls concurrency (List.length urls) 0 [] Hpos)
    as (more & Hmore & Hconcat & Hall); [lia|].
  exists more. by rewrite Hmore.
Qed.

Lemma batches_are_bounded_witness :
  0 < 2
  ∧ ∃ chunks,
      Update.make_chunks 5 ["a"; "b"; "c"; "d"; "e"] 2 0 [] = Some chunks
      ∧ concat chunks = ["a"; "b"; "c"; "d"; "e"]
      ∧ Forall (λ chunk, 0 < List.length chunk ∧ (List.length chunk ≤ 2)%nat) chunks.
Proof.
  assert (H : 0 < 2) by lia. split; [exact H|].
  exact (batches_are_bounded ["a"; "b"; "c"; "d"; "e"] 2 H).
Defined.

(** X6: with width 0 the batching loop of [checkRpcUrls] never ends on a
    non-empty input, whatever the fuel: [i += concurrency] leaves [i] at
    0.  On an empty input the loop is not entered and the result is
    empty, whatever the width. *)
Theorem zero_width_never_ends (fetch : nat → string → FetchOutcome JsValue)
    (urls : list string) (fuel width : nat) :
  urls ≠ [] →
  Update.make_chunks fuel urls 0 0 [] = None
  ∧ Update.checkRpcUrls fetch urls 0 = None
  ∧ Update.checkRpcUrls fetch [] width = Some [].
Proof.
  intros Hne.
  assert (Hlen : (0 < List.length urls)%nat) by (destruct urls; [done | simpl; lia]).
  split; [by apply make_chunks_stuck|]. split; [|done].
  unfold Update.checkRpcUrls. by rewrite make_chunks_stuck.
Qed.

Lemma zero_width_never_ends_witness :
  ["a"] ≠ []
  ∧ Update.make_chunks 1000 ["a"] 0 0 [] = None
  ∧ Update.checkRpcUrls Scenarios.every_second ["a"] 0 = None
  ∧ Update.checkRpcUrls Scenarios.every_second [] 7 = Some [].
Proof.
  assert (H : ["a"] ≠ @nil string) by discriminate.
  split; [exact H|].
  exact (zero_width_never_ends Scenarios.every_second ["a"] 1000 7 H).
Defined.

(** X7: when no node answers, a run that would succeed still succeeds: it
    exits with status 0, advances the version counter in the same way and
    writes the same networks, each with an empty list. *)
Theorem silent_nodes_empty_the_catalog (Function_call : Engine) (w : World) (fs : Files)
    (silent : string → nat → string → FetchOutcome JsValue) :
  (∀ chainId n url, probe_succeeds (silent chainId n url) = false) →
  Update.main Function_call w = Some (0%Z, fs) →
  Update.main Function_call (with_probe w silent)
  = Some (0%Z, {| rpc_providers_json :=
                    map (λ entry, (entry.1, [])) <$> rpc_providers_json fs;
                  providers_version := providers_version fs |}).
Proof.
  intros Hsilent Hmain.
  destruct (main_success _ _ _ Hmain)
    as (status & content & extraRpcs & fs1 & result & validated & version
        & Hup & Hcall & Hfilter & Hvalidate & Hversion & ->).
  pose proof (filter_stage_NoDup _ _ Hfilter) as Hnodup.
  unfold Update.validate_stage in Hvalidate.
  rewrite (validate_entries_fresh (probe w) result []) in Hvalidate by done.
  injection Hvalidate as <-.
  rewrite main_listing. unfold with_probe. simpl. rewrite Hup.
  assert (Hok : ok status = true).
  { rewrite main_listing, Hup in Hmain. by destruct (ok status). }
  rewrite Hok, Hcall. simpl. rewrite Hfilter.
  unfold Update.validate_stage.
  rewrite (validate_entries_fresh silent result []) by done. simpl.
  rewrite Hversion. simpl.
  rewrite (validated_mapping_none silent) by done.
  unfold validated_mapping. rewrite map_map. reflexivity.
Qed.

Lemma silent_nodes_empty_the_catalog_witness :
  let fs := {| rpc_providers_json := Some [("56", []); ("137", ["https://x.example"])];
               providers_version := Holds "8" |} in
  (∀ chainId n url, probe_succeeds (Cases.silent chainId n url) = false)
  ∧ Update.main (returning Cases.two_networks) Cases.flaky = Some (0%Z, fs)
  ∧ Update.main (returning Cases.two_networks) (with_probe Cases.flaky Cases.silent)
    = Some (0%Z, {| rpc_providers_json := Some [("56", []); ("137", [])];
                    providers_version := Holds "8" |}).
Proof.
  intros fs.
  assert (H1 : ∀ chainId n url, probe_succeeds (Cases.silent chainId n url) = false)
    by reflexivity.
  assert (H2 : Update.main (returning Cases.two_networks) Cases.flaky = Some (0%Z, fs))
    by (vm_compute; reflexivity).
  split; [exact H1|]. split; [exact H2|].
  exact (silent_nodes_empty_the_catalog _ _ _ _ H1 H2).
Defined.

(** X8: when every node answers, the script with the prober and the script
    without it end in the same way and leave the same files. *)
Theorem all_alive_agrees_with_unprobed (Function_call : Engine) (w : World) :
  (∀ chainId n url, probe_succeeds (probe w chainId n url) = true) →
  Update.main Function_call w = Part000.main Function_call w.
Proof.
  intros Halive. rewrite main_listing, part_000_main_listing.
  change Part000.function_body with Update.function_body.
  change Part000.update_version with Update.update_version.
  destruct (upstream w) as [|status [content|]]; [done| |done].
  destruct (ok status); simpl; [|done].
  destruct (Function_call _ _) as [[extraRpcs|] fs]; simpl; [|done].
  generalize (filter_stage_agree extraRpcs).
  destruct (Update.filter_stage extraRpcs) as [result|] eqn:Hfilter; intros <-; [|done].
  unfold Update.validate_stage.
  rewrite (validate_entries_fresh (probe w) result [])
    by (simpl; by apply (filter_stage_NoDup extraRpcs)).
  simpl. by rewrite validated_mapping_all.
Qed.

Lemma all_alive_agrees_with_unprobed_witness :
  (∀ chainId n url,
     probe_succeeds (probe (Scenarios.serving "") chainId n url) = true)
  ∧ Update.main (returning Scenarios.network_137) (Scenarios.serving "")
    = Part000.main (returning Scenarios.network_137) (Scenarios.serving "").
Proof.
  assert (H : ∀ chainId n url,
             probe_succeeds (probe (Scenarios.serving "") chainId n url) = true)
    by reflexivity.
  split; [exact H|].
  exact (all_alive_agrees_with_unprobed (returning Scenarios.network_137) _ H).
Defined.

(** X9: a failed run never changes the version counter, and changes the
    catalog in one case only.  A run that ends with another status than 0
    ends with status 1.  Its files are those it started with or, when the
    document was fetched and executed, those the execution left, unless
    the catalog was written and the write of the version then failed: the
    counter is still as it was, and the catalog is the one a successful
    run writes. *)
Theorem failed_run_keeps_version (disk : Disk) (Function_call : Engine) (w : World)
    (status : Z) (fs : Files) :
  Update.main_on disk Function_call w = Some (status, fs) →
  status ≠ 0%Z →
  status = 1%Z
  ∧ ∃ fs0,
      (fs0 = files w
       ∨ ∃ code content,
           upstream w = Responded code (Some content)
           ∧ fs0 = (Function_call (Update.function_body content) (files w)).2)
      ∧ providers_version fs = providers_version fs0
      ∧ (fs = fs0
         ∨ (writes_rpc_providers_json disk = true
            ∧ writes_providers_version disk = false
            ∧ ∃ extraRpcs result,
                extracted Function_call w extraRpcs
                ∧ Update.filter_stage extraRpcs = Some result
                ∧ rpc_providers_json fs = Some (validated_mapping (probe w) result))).
Proof.
  rewrite main_on_listing. intros Hmain Hstatus.
  destruct (upstream w) as [|code [content|]] eqn:Hup.
  - injection Hmain as <- <-. split; [done|]. exists (files w). auto.
  - destruct (ok code); simpl in Hmain;
      [|injection Hmain as <- <-; split; [done|]; exists (files w); auto].
    destruct (Function_call _ _) as [returned fs1] eqn:Hcall.
    assert (Hfs1 : fs1 = files w
                   ∨ ∃ code0 content0,
                       Responded code (Some content) = Responded code0 (Some content0)
                       ∧ fs1 = (Function_call (Update.function_body content0) (files w)).2).
    { right. exists code, content. by rewrite Hcall. }
    destruct returned as [extraRpcs|]; simpl in Hmain;
      [|injection Hmain as <- <-; split; [done|]; exists fs1; auto].
    destruct (Update.filter_stage extraRpcs) as [result|] eqn:Hfilter;
      [|injection Hmain as <- <-; split; [done|]; exists fs1; auto].
    unfold Update.validate_stage in Hmain.
    rewrite (validate_entries_fresh (probe w) result []) in Hmain
      by (simpl; by apply (filter_stage_NoDup extraRpcs)).
    simpl in Hmain.
    destruct (writes_rpc_providers_json disk) eqn:Hcatalog; simpl in Hmain;
      [|injection Hmain as <- <-; split; [done|]; exists fs1; auto].
    destruct (Update.update_version _); simpl in Hmain; [|done].
    destruct (writes_providers_version disk) eqn:Hcounter; simpl in Hmain;
      injection Hmain as <- <-; [done|].
    split; [done|]. exists fs1. split; [done|]. split; [done|]. right.
    split; [done|]. split; [done|]. exists extraRpcs, result.
    split; [by exists code, content, fs1|]. done.
  - destruct (ok code); injection Hmain as <- <-; split; try done;
      exists (files w); auto.
Qed.

Lemma failed_run_keeps_version_witness :
  let disk := {| writes_rpc_providers_json := true; writes_providers_version := false |} in
  let w := Scenarios.serving "" in
  let fs := {| rpc_providers_json := Some [("137", ["https://x.example"])];
               providers_version := Holds "7" |} in
  Update.main_on disk (returning Scenarios.network_137) w = Some (1%Z, fs)
  ∧ 1%Z ≠ 0%Z
  ∧ 1%Z = 1%Z
  ∧ ∃ fs0,
      (fs0 = files w
       ∨ ∃ code content,
           upstream w = Responded code (Some content)
           ∧ fs0 = (returning Scenarios.network_137 (Update.function_body content)
                      (files w)).2)
      ∧ providers_version fs = providers_version fs0
      ∧ (fs = fs0
         ∨ (writes_rpc_providers_json disk = true
            ∧ writes_providers_version disk = false
            ∧ ∃ extraRpcs result,
                extracted (returning Scenarios.network_137) w extraRpcs
                ∧ Update.filter_stage extraRpcs = Some result
                ∧ rpc_providers_json fs = Some (validated_mapping (probe w) result))).
Proof.
  intros disk w fs.
  assert (H1 : Update.main_on disk (returning Scenarios.network_137) w = Some (1%Z, fs))
    by (vm_compute; reflexivity).
  assert (H2 : 1%Z ≠ 0%Z) by discriminate.
  split; [exact H1|]. split; [exact H2|].
  exact (failed_run_keeps_version disk _ _ _ _ H1 H2).
Defined.

(** ** The version counter, run after run *)

Section Counter.

Lemma update_version_numeral n :
  (n < 2 ^ 53)%N →
  Update.update_version (Holds (decimal n)) = Some (decimal (n + 1)).
Proof.
  intros Hn. apply update_version_integer; [|done].
  apply Number_decimal. unfold max_exact.
  change (2 ^ 53)%Z with (Z.of_N (2 ^ 53)). lia.
Qed.

Lemma version_after_numeral k n :
  (n + N.of_nat k <= 2 ^ 53)%N →
  version_after k (Holds (decimal n)) = Some (Holds (decimal (n + N.of_nat k))).
Proof.
  revert n. induction k as [|k IH]; intros n Hn.
  - simpl. by rewrite N.add_0_r.
  - cbn [version_after]. rewrite update_version_numeral by lia. simpl.
    rewrite IH by lia. do 3 f_equal. lia.
Qed.

(** [Number] looks at a text only through its trimmed form. *)
Lemma Number_trim text text' :
  trim (list_ascii_of_string text) = trim (list_ascii_of_string text') →
  Number text = Number text'.
Proof. intros H. unfold Number. by rewrite H. Qed.

Lemma trim_start_white_space pad s :
  forallb is_white_space pad = true → trim_start (pad ++ s) = trim_start s.
Proof.
  induction pad as [|c pad IH]; simpl; [done|].
  intros [-> Hpad]%andb_true_iff. by apply IH.
Qed.

Lemma trim_start_after_digits s tail :
  forallb is_digit s = true → nonempty s = true → trim_start (s ++ tail) = s ++ tail.
Proof.
  destruct s as [|c s]; [done|]. simpl.
  intros [Hc _]%andb_true_iff _.
  by destruct (digit_is_plain c Hc) as (-> & _).
Qed.

Lemma rev_digits s :
  forallb is_digit s = true → nonempty s = true →
  forallb is_digit (rev s) = true ∧ nonempty (rev s) = true.
Proof.
  intros Hs Hne. split.
  - apply forallb_forall. intros c Hc%in_rev.
    rewrite forallb_forall in Hs. by apply Hs.
  - destruct s as [|c s]; [done|]. simpl. by destruct (rev s).
Qed.

Lemma trim_padded pad1 s pad2 :
  forallb is_white_space pad1 = true →
  forallb is_white_space pad2 = true →
  forallb is_digit s = true → nonempty s = true →
  trim (pad1 ++ s ++ pad2) = s.
Proof.
  intros Hpad1 Hpad2 Hs Hne. unfold trim.
  rewrite trim_start_white_space, trim_start_after_digits by done.
  rewrite rev_app_distr.
  destruct (rev_digits s Hs Hne) as [Hrev Hnerev].
  rewrite trim_start_white_space.
  - rewrite <- (app_nil_r (rev s)), trim_start_after_digits by done.
    rewrite app_nil_r. apply rev_involutive.
  - apply forallb_forall. intros c Hc%in_rev.
    rewrite forallb_forall in Hpad2. by apply Hpad2.
Qed.

(** The numeral of a negative integer is read back as that integer. *)
Lemma Number_negative n :
  (0 < n)%N → (Z.of_N n <= max_exact)%Z →
  Number ("-" ++ decimal n) = Some (Int (- Z.of_N n)).
Proof.
  intros Hpos Hmax. unfold Number.
  destruct (decimal_digits n) as [Hs Hne].
  assert (Hvalue : digits_value 10 0 (list_ascii_of_string (decimal n)) = Some n).
  { unfold decimal. rewrite list_ascii_of_string_of_list_ascii.
    by rewrite digits_value_digits_of by apply numeral_fuel. }
  change (list_ascii_of_string ("-" ++ decimal n)%string)
    with ("-"%char :: list_ascii_of_string (decimal n)).
  set (s := list_ascii_of_string (decimal n)) in *.
  assert (Htrim : trim ("-"%char :: s) = "-"%char :: s).
  { unfold trim. change (trim_start ("-"%char :: s)) with ("-"%char :: s).
    change (rev ("-"%char :: s)) with (rev s ++ ["-"%char]).
    destruct (rev_digits s Hs Hne) as [Hrev Hnerev].
    rewrite trim_start_after_digits by done.
    rewrite rev_app_distr. simpl. by rewrite rev_involutive. }
  rewrite Htrim.
  destruct s as [|c rest] eqn:Es; [done|]. rewrite <- Es in *.
  assert (Hc : is_digit c = true).
  { rewrite Es in Hs. simpl in Hs. by apply andb_true_iff in Hs as [? _]. }
  destruct (digit_is_plain c Hc) as (_ & _ & _ & HI & _).
  replace (non_decimal ("-"%char :: s)) with (@None numeric_literal)
    by (rewrite Es; reflexivity).
  change (Ascii.eqb "-" "-") with true. simpl orb. cbv iota.
  replace (string_of_list_ascii s =? "Infinity") with false.
  2:{ rewrite Es. simpl. by rewrite HI. }
  unfold unsigned_decimal. rewrite (span_digits_all s Hs), Hvalue.
  rewrite Es at 1. simpl. unfold signed.
  by destruct (Z.leb_spec (Z.of_N n) max_exact); [|lia].
Qed.

(** What [read_version] returns is a number that [add_one] and [ToString]
    handle: not [NaN], and within the exact integers. *)
Lemma read_version_range file current :
  Update.read_version file = Some current →
  current ≠ NaN ∧ ∀ z, current = Int z → (- max_exact <= z <= max_exact)%Z.
Proof.
  unfold Update.read_version.
  assert (Hzero : Int 0 ≠ NaN ∧ ∀ z, Int 0 = Int z → (- max_exact <= z <= max_exact)%Z).
  { split; [done|]. intros z [= <-]. unfold max_exact. lia. }
  destruct file as [| |text]; try (intros [= <-]; exact Hzero).
  destruct (Number text) as [versionData|] eqn:HNumber; simpl; [|done].
  destruct versionData as [|b|z0]; simpl; try (intros [= <-]; exact Hzero).
  { intros [= <-]. split; [done|]. by intros z [=]. }
  destruct (Z.eqb_spec z0 0) as [->|Hz0]; simpl; intros [= <-]; [exact Hzero|].
  split; [done|]. intros z [= <-]. unfold Number in HNumber.
  assert (Hsigned : ∀ negative l, signed negative l = Some (Int z0) →
                                  (- max_exact <= z0 <= max_exact)%Z).
  { intros negative [| |n]; simpl; try done.
    destruct (Z.leb_spec (Z.of_N n) max_exact); [|done].
    intros [= <-]. destruct negative; lia. }
  destruct (trim _) as [|c rest]; [injection HNumber as <-; unfold max_exact; lia|].
  destruct (non_decimal (c :: rest)); [by eapply Hsigned|].
  destruct (_ =? "Infinity"); [done | by eapply Hsigned].
Qed.

Lemma Number_ToString n :
  n ≠ NaN →
  (∀ z, n = Int z → (- max_exact <= z <= max_exact)%Z) →
  Number (ToString n) = Some n.
Proof.
  intros Hnan Hrange. destruct n as [|[]|z]; [done|reflexivity|reflexivity|].
  specialize (Hrange z eq_refl). unfold ToString.
  destruct (Z.ltb_spec z 0).
  - rewrite Number_negative by lia. do 2 f_equal. lia.
  - change ("" ++ decimal (Z.abs_N z))%string with (decimal (Z.abs_N z)).
    rewrite Number_decimal by lia. do 2 f_equal. lia.
Qed.
End Counter.

(** X10: the text a version step writes is read back by the next step as
    the very number that was written, negative values and infinities
    included: [Number] undoes the template literal. *)
Theorem written_version_reads_back (file : VersionFile) (text : string) :
  Update.update_version file = Some text →
  ∃ newVersion,
    text = ToString newVersion
    ∧ Number text = Some newVersion
    ∧ Update.read_version (Holds text) = Some newVersion.
Proof.
  unfold Update.update_version.
  destruct (Update.read_version file) as [current|] eqn:Hread; simpl; [|done].
  destruct (add_one current) as [newVersion|] eqn:Hadd; simpl; [|done].
  intros [= <-]. exists newVersion.
  destruct (read_version_range _ _ Hread) as [Hnan Hrange].
  assert (Hnew : newVersion ≠ NaN
                 ∧ ∀ z, newVersion = Int z → (- max_exact <= z <= max_exact)%Z).
  { unfold add_one in Hadd. destruct current as [|b|z]; [done| |].
    - injection Hadd as <-. done.
    - destruct (Z.eqb_spec z max_exact) as [->|_].
      { injection Hadd as <-. split; [done|]. intros z' [= <-].
        unfold max_exact. lia. }
      destruct (Z.leb_spec (- max_exact) z); [|done].
      destruct (Z.ltb_spec z max_exact); [|done].
      injection Hadd as <-. split; [done|]. intros z' [= <-]. lia. }
  destruct Hnew as [Hnan' Hrange'].
  pose proof (Number_ToString newVersion Hnan' Hrange') as HNumber.
  split; [done|]. split; [done|].
  unfold Update.read_version. rewrite HNumber. simpl.
  destruct newVersion as [| |z]; [done|done|]. simpl.
  by destruct (Z.eqb_spec z 0) as [->|].
Qed.

Lemma written_version_reads_back_witness :
  Update.update_version (Holds "-5") = Some "-4"
  ∧ ∃ newVersion,
      "-4" = ToString newVersion
      ∧ Number "-4" = Some newVersion
      ∧ Update.read_version (Holds "-4") = Some newVersion.
Proof.
  assert (H : Update.update_version (Holds "-5") = Some "-4") by reflexivity.
  split; [exact H|].
  exact (written_version_reads_back (Holds "-5") "-4" H).
Defined.

(** X11: the counter counts the runs.  Starting without a counter file,
    [k] version steps in a row leave the decimal numeral of [k] in the
    file, as long as [k] stays within the integers a double holds
    exactly. *)
Theorem version_counts_runs (k : nat) :
  0 < k →
  (N.of_nat k <= 2 ^ 53)%N →
  version_after k Absent = Some (Holds (decimal (N.of_nat k))).
Proof.
  intros Hpos Hmax. destruct k as [|k]; [lia|].
  change (version_after (S k) Absent) with (version_after k (Holds (decimal 1))).
  rewrite version_after_numeral by lia. do 3 f_equal. lia.
Qed.

Lemma version_counts_runs_witness :
  0 < 12 ∧ (N.of_nat 12 <= 2 ^ 53)%N ∧ version_after 12 Absent = Some (Holds "12").
Proof.
  assert (H1 : 0 < 12) by lia.
  assert (H2 : (N.of_nat 12 <= 2 ^ 53)%N) by (vm_compute; discriminate).
  split; [exact H1|]. split; [exact H2|].
  exact (version_counts_runs 12 H1 H2).
Defined.

(** X12: white space around the numeral in [providers_version] (a final
    newline left by an editor, say) does not disturb the version step:
    the file is read as the same number and the next version is written
    without the padding. *)
Theorem padded_version_file (pad1 pad2 : string) (n : N) :
  forallb is_white_space (list_ascii_of_string pad1) = true →
  forallb is_white_space (list_ascii_of_string pad2) = true →
  (n < 2 ^ 53)%N →
  Update.update_version (Holds (pad1 ++ decimal n ++ pad2)) = Some (decimal (n + 1)).
Proof.
  intros Hpad1 Hpad2 Hn.
  rewrite <- (update_version_numeral n Hn).
  unfold Update.update_version, Update.read_version.
  rewrite (Number_trim (pad1 ++ decimal n ++ pad2) (decimal n)); [done|].
  destruct (decimal_digits n) as [Hs Hne].
  rewrite !list_ascii_of_string_app, trim_padded by done.
  by rewrite trim_digits.
Qed.

Lemma padded_version_file_witness :
  forallb is_white_space (list_ascii_of_string " ") = true
  ∧ forallb is_white_space (list_ascii_of_string newline) = true
  ∧ (41 < 2 ^ 53)%N
  ∧ Update.update_version (Holds (" " ++ decimal 41 ++ newline)) = Some "42".
Proof.
  assert (H1 : forallb is_white_space (list_ascii_of_string " ") = true) by reflexivity.
  assert (H2 : forallb is_white_space (list_ascii_of_string newline) = true) by reflexivity.
  assert (H3 : (41 < 2 ^ 53)%N) by reflexivity.
  split; [exact H1|]. split; [exact H2|]. split; [exact H3|].
  exact (padded_version_file " " newline 41 H1 H2 H3).
Defined.

(** ** More on the stripping of the module syntax *)

Section Deleting.
Implicit Types (s w : list ascii).

Lemma match_here_suffix r prev s prev' s' :
  match_here r prev s = Some (prev', s') → ∃ w, s = w ++ s'.
Proof.
  intros H. apply (rmatch_consuming r) in H as (w & p & s'' & -> & [= _ <-]).
  by exists w.
Qed.

(** Deleting matches only takes characters away. *)
Lemma delete_matches_sublist fuel r prev s :
  delete_matches fuel r prev s `sublist_of` s.
Proof.
  revert prev s. induction fuel as [|fuel IH]; intros prev s; [done|].
  rewrite delete_matches_S.
  assert (Hstep : match s with
                  | [] => []
                  | c :: rest => c :: delete_matches fuel r (Some c) rest
                  end `sublist_of` s).
  { destruct s as [|c rest]; [done|]. apply sublist_skip, IH. }
  destruct (match_here r prev s) as [[prev' s']|] eqn:Hmatch; [|exact Hstep].
  destruct (List.length s' <? List.length s)%nat; [|exact Hstep].
  apply match_here_suffix in Hmatch as [w ->].
  apply sublist_inserts_l, IH.
Qed.

Lemma replace_all_sublist r text :
  list_ascii_of_string (replace_all r text) `sublist_of` list_ascii_of_string text.
Proof.
  unfold replace_all. rewrite list_ascii_of_string_of_list_ascii.
  apply delete_matches_sublist.
Qed.

Lemma trim_start_length s : (List.length (trim_start s) ≤ List.length s)%nat.
Proof.
  induction s as [|c s IH]; simpl; [done|].
  destruct (is_white_space c); simpl; lia.
Qed.

Lemma trim_start_fixed s :
  trim_start s = s →
  match s with [] => true | c :: _ => negb (is_white_space c) end = true.
Proof.
  destruct s as [|c s]; [done|]. simpl.
  destruct (is_white_space c); [|done].
  intros H. pose proof (trim_start_length s) as Hlen. rewrite H in Hlen.
  simpl in Hlen. lia.
Qed.

(** An [export default] line needs the word [default]. *)
Lemma export_default_needs_default prev s :
  is_Some (match_here export_default prev s) →
  occurs_in (list_ascii_of_string "default") s = true.
Proof.
  intros [x H]. unfold match_here, export_default in H.
  cbn [Sequence rmatch] in H. destruct (at_line_start prev); [|done].
  apply (rmatch_Literal "export") in H as (p1 & s1 & -> & H).
  apply (rmatch_consuming (Plus Space)) in H as (w & p2 & s2 & -> & H).
  apply (rmatch_Literal "default") in H as (p3 & s3 & -> & _).
  rewrite (app_assoc _ w). apply occurs_in_app.
Qed.

(** At the start of the text, [export] and the space behind it are
    matched when a declaration follows. *)
Lemma export_keyword_matches s :
  trim_start s = s →
  ∃ prev', match_here export_keyword None (list_ascii_of_string "export " ++ s)
           = Some (prev', s).
Proof.
  intros Hplain%trim_start_fixed.
  cut (accepts (λ prev s', rmatch (Sequence [Literal "export"; Plus Space]) prev s'
                             (λ prev' s'', Some (prev', s'')))
         (list_ascii_of_string "export" ++ " "%char :: ([] ++ s))
         (λ x, x.2 = s)).
  { intros H. destruct (H None) as ([prev' s'] & Hx & Hs). simpl in Hs. subst s'.
    exists prev'. unfold match_here, export_keyword.
    cbn [Sequence]. rewrite rmatch_Cat. cbn [Sequence] in Hx. exact Hx. }
  unfold Plus. cbn [Sequence].
  apply accepts_Cat, accepts_Literal.
  apply accepts_Cat, accepts_Cat, accepts_Class; [done|].
  apply (accepts_Star is_white_space []); [done|exact Hplain|].
  intros p. by exists (p, s).
Qed.
End Deleting.

(** X13: the stripping only deletes.  The text handed to the engine is a
    subsequence of the fetched text, in its order, followed by the return
    statement: no character is added, changed or moved. *)
Theorem stripping_only_deletes (content : string) :
  ∃ kept,
    Update.function_body content = (kept ++ newline ++ "return extraRpcs;")%string
    ∧ Part000.function_body content = (kept ++ newline ++ "return extraRpcs;")%string
    ∧ list_ascii_of_string kept `sublist_of` list_ascii_of_string content.
Proof.
  eexists. split; [reflexivity|]. split; [reflexivity|].
  etrans; [apply replace_all_sublist|].
  etrans; [apply replace_all_sublist|].
  etrans; [apply replace_all_sublist|].
  apply replace_all_sublist.
Qed.

(** X14: an exported declaration loses its [export] keyword and nothing
    else.  When the text is [export] followed by a declaration in which
    [export] and [allExtraRpcs] do not occur, and [import] and [default]
    occur nowhere, the engine receives the declaration itself, so that the
    name it binds is there for [return extraRpcs;]. *)
Theorem export_keyword_is_dropped (declaration : string) :
  occurs "import" ("export " ++ declaration) = false →
  occurs "default" ("export " ++ declaration) = false →
  occurs "export" declaration = false →
  occurs "allExtraRpcs" declaration = false →
  trim_start (list_ascii_of_string declaration) = list_ascii_of_string declaration →
  Update.function_body ("export " ++ declaration)
  = (declaration ++ newline ++ "return extraRpcs;")%string.
Proof.
  intros Himport Hdefault Hexport Hmerge Hplain. unfold Update.function_body.
  rewrite (replace_all_free _ "import" _ import_statement_needs Himport).
  rewrite (replace_all_free _ "default" _ export_default_needs_default Hdefault).
  assert (Hkeyword : replace_all export_keyword ("export " ++ declaration) = declaration).
  { unfold replace_all. rewrite list_ascii_of_string_app.
    destruct (export_keyword_matches _ Hplain) as [prev' Hmatch].
    rewrite delete_matches_S, Hmatch.
    destruct (Nat.ltb_spec (List.length (list_ascii_of_string declaration))
                (List.length (list_ascii_of_string "export "
                              ++ list_ascii_of_string declaration)));
      [|rewrite length_app in *; simpl in *; lia].
    rewrite (delete_matches_free export_keyword (list_ascii_of_string "export"))
      by (done || apply export_keyword_needs).
    apply string_of_list_ascii_of_string. }
  rewrite Hkeyword.
  by rewrite (replace_all_free _ "allExtraRpcs" _ mergeDeep_call_needs Hmerge).
Qed.

Lemma export_keyword_is_dropped_witness :
  let declaration := "const extraRpcs = { 1: { rpcs: ['https://a.example'] } };" in
  occurs "import" ("export " ++ declaration) = false
  ∧ occurs "default" ("export " ++ declaration) = false
  ∧ occurs "export" declaration = false
  ∧ occurs "allExtraRpcs" declaration = false
  ∧ trim_start (list_ascii_of_string declaration) = list_ascii_of_string declaration
  ∧ Update.function_body ("export " ++ declaration)
    = (declaration ++ newline ++ "return extraRpcs;")%string.
Proof.
  intros declaration.
  assert (H1 : occurs "import" ("export " ++ declaration) = false) by reflexivity.
  assert (H2 : occurs "default" ("export " ++ declaration) = false) by reflexivity.
  assert (H3 : occurs "export" declaration = false) by reflexivity.
  assert (H4 : occurs "allExtraRpcs" declaration = false) by reflexivity.
  assert (H5 : trim_start (list_ascii_of_string declaration)
               = list_ascii_of_string declaration) by reflexivity.
  split; [exact H1|]. split; [exact H2|]. split; [exact H3|].
  split; [exact H4|]. split; [exact H5|].
  exact (export_keyword_is_dropped declaration H1 H2 H3 H4 H5).
Defined.

(** ** The progress counters of the validation loop *)

Section Counters.
Implicit Types (probe : string → nat → string → FetchOutcome JsValue).
Implicit Types (result validated : list (string * list string)).

Lemma url_count_cons k (urls : list string) result :
  Reporting.url_count ((k, urls) :: result)
  = List.length urls + Reporting.url_count result.
Proof. reflexivity. Qed.

Lemma nonempty_networks_cons k (urls : list string) result :
  Reporting.nonempty_networks ((k, urls) :: result)
  = (if (List.length urls =? 0)%nat then 0 else 1) + Reporting.nonempty_networks result.
Proof.
  unfold Reporting.nonempty_networks.
  destruct (List.length urls =? 0)%nat eqn:Hlen.
  - rewrite filter_cons_False. { done. } simpl. rewrite Hlen. simpl. tauto.
  - rewrite filter_cons_True. { done. } simpl. rewrite Hlen. simpl. tauto.
Qed.

Lemma nonempty_networks_bound result :
  (Reporting.nonempty_networks result ≤ List.length result)%nat.
Proof.
  unfold Reporting.nonempty_networks.
  change (@List.length) with (@base.length) in *. apply length_filter.
Qed.

Lemma passed_length fetch urls :
  (List.length (passed fetch urls) ≤ List.length urls)%nat.
Proof. apply sublist_length, passed_from_sublist. Qed.

Lemma url_count_validated probe result :
  (Reporting.url_count (validated_mapping probe result) ≤ Reporting.url_count result)%nat.
Proof.
  induction result as [|[k urls] result IH]; [done|].
  change (validated_mapping probe ((k, urls) :: result))
    with ((k, passed (probe k) urls) :: validated_mapping probe result).
  rewrite !url_count_cons. pose proof (passed_length (probe k) urls). lia.
Qed.

(** The loop with its counters computes the mapping of the loop without
    them, and the counters are sums over the filtered mapping. *)
Lemma counting_validate_entries probe result validated progress :
  Reporting.validate_entries probe result validated progress
  = validated' ← Update.validate_entries probe result validated;
    Some (validated',
          {| Reporting.totalUrls :=
               Reporting.totalUrls progress + Reporting.url_count result;
             Reporting.validUrls :=
               Reporting.validUrls progress
               + Reporting.url_count (validated_mapping probe result);
             Reporting.processedChains :=
               Reporting.processedChains progress
               + Reporting.nonempty_networks result |}).
Proof.
  revert validated progress.
  induction result as [|[k urls] result IH]; intros validated progress.
  - simpl. destruct progress as [t v c]. simpl.
    unfold Reporting.url_count, Reporting.nonempty_networks. simpl.
    by rewrite !Nat.add_0_r.
  - change (validated_mapping probe ((k, urls) :: result))
      with ((k, passed (probe k) urls) :: validated_mapping probe result).
    rewrite !url_count_cons, nonempty_networks_cons. simpl.
    destruct (Nat.eqb_spec (List.length urls) 0) as [Hlen|Hlen].
    + rewrite IH. destruct urls; [|done]. simpl.
      destruct (Update.validate_entries _ _ _); simpl; [|done].
      do 2 f_equal.
    + rewrite checkRpcUrls_passed by lia. simpl. rewrite IH. simpl.
      destruct (Update.validate_entries _ _ _); simpl; [|done].
      do 2 f_equal. f_equal; lia.
Qed.
End Counters.

(** X15: the progress counters.  Counting does not change what is
    validated; at the end of the loop totalUrls is the number of URLs the
    filter kept, validUrls the number of those whose probe succeeded (never
    more than totalUrls), and processedChains the number of networks with
    at least one kept URL (never more than the networks of the mapping). *)
Theorem progress_counters (probe : string → nat → string → FetchOutcome JsValue)
    (result : list (string * list string)) :
  ∃ validated,
    Update.validate_stage probe result = Some validated
    ∧ Reporting.validate_entries probe result [] Reporting.start
      = Some (validated,
              {| Reporting.totalUrls := Reporting.url_count result;
                 Reporting.validUrls :=
                   Reporting.url_count (validated_mapping probe result);
                 Reporting.processedChains := Reporting.nonempty_networks result |})
    ∧ (Reporting.url_count (validated_mapping probe result)
       ≤ Reporting.url_count result)%nat
    ∧ (Reporting.nonempty_networks result ≤ List.length result)%nat.
Proof.
  destruct (validate_entries_total probe result []) as [validated Hvalidated].
  exists validated. split; [exact Hvalidated|].
  split; [|split; [apply url_count_validated | apply nonempty_networks_bound]].
  rewrite counting_validate_entries, Hvalidated. reflexivity.
Qed.

(** ** The variant without probing, on well-typed documents *)

(** X16: in the variant without probing, a document of the declared type
    with distinct network ids can end in the handler through a failed
    write only, and what is written is the filtered mapping itself, its
    networks in the order in which the document's properties are listed.
    When both writes go through the run exits with status 0; when the
    catalog write fails no file is changed; when the version write fails
    the catalog is replaced already. *)
Theorem unprobed_well_typed_run (disk : Disk) (Function_call : Engine) (w : World)
    (status : nat) (content version : string) (properties : list (string * JsValue))
    (fs : Files) :
  upstream w = Responded status (Some content) →
  ok status = true →
  Function_call (Part000.function_body content) (files w)
  = (Some (JObject properties), fs) →
  document_well_typed properties = true →
  NoDup properties.*1 →
  Part000.update_version (providers_version fs) = Some version →
  let catalog := filtered_mapping (EnumerableOwnProperties properties) in
  Part000.main_on disk Function_call w
  = Some (if writes_rpc_providers_json disk
          then if writes_providers_version disk
               then (0%Z, {| rpc_providers_json := Some catalog;
                             providers_version := Holds version |})
               else (1%Z, {| rpc_providers_json := Some catalog;
                             providers_version := providers_version fs |})
          else (1%Z, fs)).
Proof.
  intros Hup Hok Hcall Htyped Hnodup Hversion catalog. subst catalog.
  rewrite part_000_main_on_listing, Hup, Hok, Hcall. simpl.
  unfold Part000.filter_stage. simpl.
  generalize (filter_entries_agree (EnumerableOwnProperties properties) []).
  rewrite (filter_entries_well_typed (EnumerableOwnProperties properties) []);
    [|by apply document_well_typed_listed|by apply EnumerableOwnProperties_NoDup].
  intros <-. simpl. rewrite Hversion. simpl.
  by destruct (writes_rpc_providers_json disk), (writes_providers_version disk).
Qed.

Lemma unprobed_well_typed_run_witness :
  let w := Scenarios.serving "" in
  let properties :=
    [("137", JObject [("rpcs", JArray [JString "http://y.example"])]);
     ("1", JObject [("rpcs", JArray
        [ JString "https://a.example";
          JObject [("url", JString "https://c.example"); ("tracking", JString "yes")] ])])] in
  upstream w = Responded 200 (Some "")
  ∧ ok 200 = true
  ∧ returning (JObject properties) (Part000.function_body "") (files w)
    = (Some (JObject properties), Scenarios.earlier_files)
  ∧ document_well_typed properties = true
  ∧ NoDup properties.*1
  ∧ Part000.update_version (providers_version Scenarios.earlier_files) = Some "8"
  ∧ Part000.main_on writable (returning (JObject properties)) w
    = Some (0%Z, {| rpc_providers_json := Some [("1", ["https://a.example"]); ("137", [])];
                    providers_version := Holds "8" |}).
Proof.
  intros w properties.
  assert (H1 : upstream w = Responded 200 (Some "")) by reflexivity.
  assert (H2 : ok 200 = true) by reflexivity.
  assert (H3 : returning (JObject properties) (Part000.function_body "") (files w)
               = (Some (JObject properties), Scenarios.earlier_files)) by reflexivity.
  assert (H4 : document_well_typed properties = true) by reflexivity.
  assert (H5 : NoDup properties.*1).
  { apply (bool_decide_unpack _). by vm_compute. }
  assert (H6 : Part000.update_version (providers_version Scenarios.earlier_files)
               = Some "8") by reflexivity.
  split; [exact H1|]. split; [exact H2|]. split; [exact H3|].
  split; [exact H4|]. split; [exact H5|]. split; [exact H6|].
  exact (unprobed_well_typed_run writable (returning (JObject properties)) w 200 "" "8"
           properties Scenarios.earlier_files H1 H2 H3 H4 H5 H6).
Defined.

(** ** What is published *)

(** X17: only https URLs are published.  Whatever the document, the
    engine and the nodes, every URL of the catalog written by a successful
    run starts with [https]. *)
Theorem published_urls_are_https (Function_call : Engine) (w : World) (fs : Files)
    (chainId url : string) (urls : list string) :
  Update.main Function_call w = Some (0%Z, fs) →
  output_urls fs chainId = Some urls →
  url ∈ urls →
  startsWith url "https" = true.
Proof.
  intros Hmain Hout Hin.
  destruct (output_entry_origin Function_call w fs chainId urls Hmain Hout)
    as (extraRpcs & rpcs & eligible & _ & _ & Hcollect & ->).
  apply collect_urls_eligible in Hcollect. simpl in Hcollect. subst eligible.
  assert (Hsub : passed (probe w chainId) (eligible_urls chainId rpcs)
                 `sublist_of` eligible_urls chainId rpcs) by apply passed_from_sublist.
  apply (sublist_submseteq _ _) in Hsub.
  apply (elem_of_submseteq _ _ _ Hin) in Hsub.
  unfold eligible_urls in Hsub. apply list_elem_of_filter in Hsub as [Hhttps _].
  by apply Is_true_true.
Qed.

Lemma published_urls_are_https_witness :
  let fs := {| rpc_providers_json := Some [("137", ["https://x.example"])];
               providers_version := Holds "8" |} in
  Update.main (returning Scenarios.network_137) (Scenarios.serving "") = Some (0%Z, fs)
  ∧ output_urls fs "137" = Some ["https://x.example"]
  ∧ "https://x.example" ∈ ["https://x.example"]
  ∧ startsWith "https://x.example" "https" = true.
Proof.
  intros fs.
  assert (H1 : Update.main (returning Scenarios.network_137) (Scenarios.serving "")
               = Some (0%Z, fs)) by (vm_compute; reflexivity).
  assert (H2 : output_urls fs "137" = Some ["https://x.example"]) by reflexivity.
  assert (H3 : "https://x.example" ∈ ["https://x.example"]) by constructor.
  split; [exact H1|]. split; [exact H2|]. split; [exact H3|].
  exact (published_urls_are_https _ _ _ _ _ _ H1 H2 H3).
Defined.

(** ** Deleting a statement where it stands *)

Section Rejecting.
Context {R : Type}.
Implicit Types (k : option ascii → list ascii → option R) (s w : list ascii).










Lemma accepts_LineEnd s k (Q : R → Prop) :
  at_line_end s = true →
  accepts k s Q →
  accepts (λ prev s', rmatch LineEnd prev s' k) s Q.
Proof. intros Hs Hk prev. cbn [rmatch]. rewrite Hs. apply Hk. Qed.

End Rejecting.

Section Overlaps.
Implicit Types (L s t u w : list ascii).







End Overlaps.

Section LineTail.
Context {R : Type}.
Implicit Types (k : option ascii → list ascii → option R) (s : list ascii).



End LineTail.

Section Matches.
Implicit Types (s spec target expr after : list ascii).








End Matches.

Section InContext.
Implicit Types (s before rest after : list ascii).









End InContext.

Section Statements.
Implicit Types (before after spec target expr declaration args : string).









End Statements.



(** ** Runs on any disk *)

(** X18: a run can exit with status 0 only when both writes went through,
    and it is then the run on the disk that takes both writes: what is
    stated of the successful runs of [main] holds of the successful runs
    on any disk, for either script. *)
Theorem successful_run_wrote_both (disk : Disk) (Function_call : Engine) (w : World)
    (fs : Files) :
  Update.main_on disk Function_call w = Some (0%Z, fs)
  ∨ Part000.main_on disk Function_call w = Some (0%Z, fs) →
  writes_rpc_providers_json disk = true
  ∧ writes_providers_version disk = true
  ∧ (Update.main_on disk Function_call w = Some (0%Z, fs) →
     Update.main Function_call w = Some (0%Z, fs))
  ∧ (Part000.main_on disk Function_call w = Some (0%Z, fs) →
     Part000.main Function_call w = Some (0%Z, fs)).
Proof.
  intros Hrun.
  assert (Hdisk : writes_rpc_providers_json disk = true
                  ∧ writes_providers_version disk = true).
  { destruct Hrun as [Hrun|Hrun];
      [rewrite main_on_listing in Hrun | rewrite part_000_main_on_listing in Hrun].
    - destruct (upstream w) as [|code [content|]]; [done| |by destruct (ok code)].
      destruct (ok code); simpl in Hrun; [|done].
      destruct (Function_call _ _) as [[extraRpcs|] fs1]; simpl in Hrun; [|done].
      destruct (Update.filter_stage extraRpcs); [|done].
      destruct (Update.validate_stage _ _); simpl in Hrun; [|done].
      destruct (writes_rpc_providers_json disk); simpl in Hrun; [|done].
      destruct (Update.update_version _); simpl in Hrun; [|done].
      by destruct (writes_providers_version disk).
    - destruct (upstream w) as [|code [content|]]; [done| |by destruct (ok code)].
      destruct (ok code); simpl in Hrun; [|done].
      destruct (Function_call _ _) as [[extraRpcs|] fs1]; simpl in Hrun; [|done].
      destruct (Part000.filter_stage extraRpcs); [|done].
      destruct (writes_rpc_providers_json disk); simpl in Hrun; [|done].
      destruct (Part000.update_version _); simpl in Hrun; [|done].
      by destruct (writes_providers_version disk). }
  destruct Hdisk as [Hcatalog Hcounter]. split; [done|]. split; [done|].
  assert (Hwritable : disk = writable) by (destruct disk; simpl in *; by subst).
  by rewrite Hwritable.
Qed.

Lemma successful_run_wrote_both_witness :
  let fs := {| rpc_providers_json := Some [("137", ["https://x.example"])];
               providers_version := Holds "8" |} in
  let w := Scenarios.serving "" in
  (Update.main_on writable (returning Scenarios.network_137) w = Some (0%Z, fs)
   ∨ Part000.main_on writable (returning Scenarios.network_137) w = Some (0%Z, fs))
  ∧ writes_rpc_providers_json writable = true
  ∧ writes_providers_version writable = true
  ∧ (Update.main_on writable (returning Scenarios.network_137) w = Some (0%Z, fs) →
     Update.main (returning Scenarios.network_137) w = Some (0%Z, fs))
  ∧ (Part000.main_on writable (returning Scenarios.network_137) w = Some (0%Z, fs) →
     Part000.main (returning Scenarios.network_137) w = Some (0%Z, fs)).
Proof.
  intros fs w.
  assert (H : Update.main_on writable (returning Scenarios.network_137) w = Some (0%Z, fs)
              ∨ Part000.main_on writable (returning Scenarios.network_137) w
                = Some (0%Z, fs)) by (left; vm_compute; reflexivity).
  split; [exact H|].
  exact (successful_run_wrote_both writable _ _ _ H).
Defined.
